(** * syno-tools: the Audio Station remote client and its polling loop

    A shallow embedding of [syno_tools/similar.py].  Python values that
    travel through the program are JSON documents; the effects of the
    program (HTTP exchanges with the device, calls into the Last.fm
    library, the module-level cache, sleeping) are threaded through a
    state-and-exception monad. *)

From Stdlib Require Import ZArith NArith List Bool Ascii String Lia.
From Stdlib.Strings Require Import Byte.
From Stdlib Require Import Floats.SpecFloat.
From stdpp Require Import base option list gmap.
Import ListNotations.

Set Warnings "-register-all".

Local Open Scope N_scope.

(** ** Python strings

    A Python [str] is a sequence of Unicode code points; lone surrogates
    are legal in a [str] but have no UTF-8 encoding. *)

Definition codepoint := N.
Definition pystr := list codepoint.

Definition lit (s : string) : pystr :=
  map N_of_ascii (list_ascii_of_string s).

Definition byte_of (n : N) : byte :=
  match Byte.of_N (n mod 256) with
  | Some b => b
  | None => x00
  end.

Definition is_surrogate (c : codepoint) : bool :=
  (0xD800 <=? c) && (c <=? 0xDFFF).

(** UTF-8 encoding of one code point, [None] where the codec fails. *)
Definition utf8_codepoint (c : codepoint) : option (list byte) :=
  if c <? 0x80 then Some [byte_of c]
  else if c <? 0x800 then
    Some [byte_of (N.lor 0xC0 (N.shiftr c 6));
          byte_of (N.lor 0x80 (N.land c 0x3F))]
  else if is_surrogate c then None
  else if c <? 0x10000 then
    Some [byte_of (N.lor 0xE0 (N.shiftr c 12));
          byte_of (N.lor 0x80 (N.land (N.shiftr c 6) 0x3F));
          byte_of (N.lor 0x80 (N.land c 0x3F))]
  else
    Some [byte_of (N.lor 0xF0 (N.shiftr c 18));
          byte_of (N.lor 0x80 (N.land (N.shiftr c 12) 0x3F));
          byte_of (N.lor 0x80 (N.land (N.shiftr c 6) 0x3F));
          byte_of (N.lor 0x80 (N.land c 0x3F))].

(** [s.encode()]: strict UTF-8. *)
Fixpoint str_encode (s : pystr) : option (list byte) :=
  match s with
  | [] => Some []
  | c :: s' =>
      match utf8_codepoint c, str_encode s' with
      | Some bs, Some rest => Some (bs ++ rest)
      | _, _ => None
      end
  end.

Fixpoint str_eqb (a b : pystr) : bool :=
  match a, b with
  | [], [] => true
  | x :: a', y :: b' => (x =? y) && str_eqb a' b'
  | _, _ => false
  end.

Fixpoint starts_with (p s : pystr) : bool :=
  match p, s with
  | [], _ => true
  | a :: p', b :: s' => (a =? b) && starts_with p' s'
  | _ :: _, [] => false
  end.

(** [p in s] for two strings. *)
Fixpoint str_contains (p s : pystr) : bool :=
  starts_with p s ||
  match s with
  | [] => false
  | _ :: s' => str_contains p s'
  end.

(** [s.replace(old, new)] for one-character [old] and [new]. *)
Definition str_replace (old new : codepoint) (s : pystr) : pystr :=
  map (fun c => if c =? old then new else c) s.

(** [s.split(sep)] for a one-character separator. *)
Fixpoint str_split (sep : codepoint) (s : pystr) : list pystr :=
  match s with
  | [] => [[]]
  | c :: s' =>
      if c =? sep then [] :: str_split sep s'
      else match str_split sep s' with
           | w :: ws => (c :: w) :: ws
           | [] => [[c]]
           end
  end.

Definition comma : codepoint := 44.
Definition space : codepoint := 32.

(** ** JSON documents as Python sees them *)

Inductive json :=
| JNull
| JBool (b : bool)
| JInt (n : Z)
| JFloat (f : spec_float)
| JStr (s : pystr)
| JArr (items : list json)
| JObj (fields : list (pystr * json)).

(** A dictionary keeps its items in insertion order; keys are unique. *)
Fixpoint dget {V} (k : pystr) (d : list (pystr * V)) : option V :=
  match d with
  | [] => None
  | (k', v) :: d' => if str_eqb k k' then Some v else dget k d'
  end.

Fixpoint dset {V} (k : pystr) (v : V) (d : list (pystr * V)) : list (pystr * V) :=
  match d with
  | [] => [(k, v)]
  | (k', v') :: d' =>
      if str_eqb k k' then (k, v) :: d' else (k', v') :: dset k v d'
  end.

(** [{**d1, **d2}]: the items of [d2] are stored into [d1] one by one. *)
Definition dict_update {V} (d1 d2 : list (pystr * V)) : list (pystr * V) :=
  fold_left (fun acc kv => dset (fst kv) (snd kv) acc) d2 d1.

Definition float_is_zero (f : spec_float) : bool :=
  match f with
  | S754_zero _ => true
  | _ => false
  end.

(** Truth value of a Python object ([bool(v)]). *)
Definition truthy (v : json) : bool :=
  match v with
  | JNull => false
  | JBool b => b
  | JInt n => negb (n =? 0)%Z
  | JFloat f => negb (float_is_zero f)
  | JStr s => negb (length s =? 0)%nat
  | JArr l => negb (length l =? 0)%nat
  | JObj d => negb (length d =? 0)%nat
  end.

(** Exact comparison of a float with an integer. *)
Definition float_eq_int (f : spec_float) (n : Z) : bool :=
  match f with
  | S754_zero _ => (n =? 0)%Z
  | S754_finite s m e =>
      let v := if s then Z.neg m else Z.pos m in
      if (0 <=? e)%Z then (n =? v * 2 ^ e)%Z
      else (n * 2 ^ (- e) =? v)%Z
  | _ => false
  end.

Definition bool_int (b : bool) : Z := if b then 1%Z else 0%Z.

(** [json.loads] gives every [NaN] of every document the same object, a
    constant of the [json] module. *)
Definition is_nan (v : json) : bool :=
  match v with
  | JFloat S754_nan => true
  | _ => false
  end.

(** Python's [==] on JSON values: booleans are integers, numbers compare
    by value, NaN differs from everything, itself included.  Lists and
    dictionaries compare member by member, dictionaries regardless of
    order, and take two members that are the same object for equal
    before they ask [==]: inside a container NaN equals NaN. *)
Fixpoint py_eq (a b : json) {struct a} : bool :=
  match a, b with
  | JNull, JNull => true
  | JBool x, JBool y => (bool_int x =? bool_int y)%Z
  | JBool x, JInt y => (bool_int x =? y)%Z
  | JInt x, JBool y => (x =? bool_int y)%Z
  | JInt x, JInt y => (x =? y)%Z
  | JBool x, JFloat f => float_eq_int f (bool_int x)
  | JInt x, JFloat f => float_eq_int f x
  | JFloat f, JBool y => float_eq_int f (bool_int y)
  | JFloat f, JInt y => float_eq_int f y
  | JFloat f, JFloat g => SFeqb f g
  | JStr s, JStr t => str_eqb s t
  | JArr xs, JArr ys =>
      (fix go (xs ys : list json) : bool :=
         match xs, ys with
         | [], [] => true
         | x :: xs', y :: ys' =>
             (is_nan x && is_nan y || py_eq x y) && go xs' ys'
         | _, _ => false
         end) xs ys
  | JObj d1, JObj d2 =>
      (length d1 =? length d2)%nat &&
      (fix go (d : list (pystr * json)) : bool :=
         match d with
         | [] => true
         | (k, v) :: d' =>
             match dget k d2 with
             | Some v' => is_nan v && is_nan v' || py_eq v v'
             | None => false
             end && go d'
         end) d1
  | _, _ => false
  end.

(** Equality of two dictionary keys, or of two members of a container:
    the same object, or [==]. *)
Definition key_eq (a b : json) : bool :=
  is_nan a && is_nan b || py_eq a b.

(** [hash(v)] succeeds. *)
Definition hashable (v : json) : bool :=
  match v with
  | JArr _ | JObj _ => false
  | _ => true
  end.

(** A dictionary whose keys are Python values; the items are in the
    order in which the keys came in. *)
Definition pydict (V : Type) : Type := list (json * V).

Fixpoint kget {V} (k : json) (d : pydict V) : option V :=
  match d with
  | [] => None
  | (k', v) :: d' => if key_eq k' k then Some v else kget k d'
  end.

(** [d[k] = v]: the value of a key that is there is replaced, the key
    object stays; a new key goes to the end. *)
Fixpoint kset {V} (k : json) (v : V) (d : pydict V) : pydict V :=
  match d with
  | [] => [(k, v)]
  | (k', v') :: d' =>
      if key_eq k' k then (k', v) :: d' else (k', v') :: kset k v d'
  end.

#[global] Instance pydict_lookup {V} : Lookup json V (pydict V) := kget.
#[global] Instance pydict_insert {V} : Insert json V (pydict V) := kset.
#[global] Instance pydict_empty {V} : Empty (pydict V) := [].

(** ** Exceptions *)

Inductive exn :=
| RemotePlayerError (payload : json)
| StopIteration
| KeyError (key : pystr)
| TypeError
| AttributeError
| UnicodeEncodeError
| JSONDecodeError
| ConnectionError
| WSError
| NetworkError.

Inductive outcome (A : Type) :=
| Ret (a : A)
| Raise (e : exn).
Arguments Ret {A} a.
Arguments Raise {A} e.

(** ** Programs: state threaded through, exceptions on the side

    A raised exception keeps the state reached so far, as in Python. *)

Definition prog (S A : Type) : Type := S -> outcome A * S.

Definition ret {S A} (a : A) : prog S A := fun s => (Ret a, s).

Definition raise {S A} (e : exn) : prog S A := fun s => (Raise e, s).

Definition bind {S A B} (m : prog S A) (k : A -> prog S B) : prog S B :=
  fun s =>
    match m s with
    | (Ret a, s') => k a s'
    | (Raise e, s') => (Raise e, s')
    end.

(** [try: m except ...: h e]; the handler re-raises what it does not catch. *)
Definition try_except {S A} (m : prog S A) (h : exn -> prog S A) : prog S A :=
  fun s =>
    match m s with
    | (Ret a, s') => (Ret a, s')
    | (Raise e, s') => h e s'
    end.

Declare Scope prog_scope.
Delimit Scope prog_scope with prog.
Notation "x <- m ;; k" := (bind m (fun x => k))
  (at level 100, m at next level, right associativity) : prog_scope.
Notation "m ;;; k" := (bind m (fun _ => k))
  (at level 100, right associativity) : prog_scope.
Local Open Scope prog_scope.

Fixpoint for_each {S A} (xs : list A) (body : A -> prog S unit) : prog S unit :=
  match xs with
  | [] => ret tt
  | x :: xs' => body x ;;; for_each xs' body
  end.

(** ** Operations on Python values *)

(** [v[key]] for a string key. *)
Definition getitem {S} (v : json) (key : string) : prog S json :=
  match v with
  | JObj d =>
      match dget (lit key) d with
      | Some x => ret x
      | None => raise (KeyError (lit key))
      end
  | _ => raise TypeError
  end.

(** [v.get(key, default)]. *)
Definition get {S} (v : json) (key : string) (default : json) : prog S json :=
  match v with
  | JObj d =>
      match dget (lit key) d with
      | Some x => ret x
      | None => ret default
      end
  | _ => raise AttributeError
  end.

(** [v.items()]. *)
Definition items {S} (v : json) : prog S (list (pystr * json)) :=
  match v with
  | JObj d => ret d
  | _ => raise AttributeError
  end.

(** [iter(v)], unfolded into the elements it yields. *)
Definition iterate {S} (v : json) : prog S (list json) :=
  match v with
  | JArr l => ret l
  | JObj d => ret (map (fun kv => JStr (fst kv)) d)
  | JStr s => ret (map (fun c => JStr [c]) s)
  | _ => raise TypeError
  end.

(** [{**d, **v}]: [v] has to be a mapping. *)
Definition unpack_into {S} (d : list (pystr * json)) (v : json) : prog S json :=
  match v with
  | JObj d' => ret (JObj (dict_update d d'))
  | _ => raise TypeError
  end.

(** [v.replace(",", " ").split(" ")] collected into a set. *)
Definition words (s : pystr) : gset pystr :=
  list_to_set (str_split space (str_replace comma space s)).

Definition words_of {S} (v : json) : prog S (gset pystr) :=
  match v with
  | JStr s => ret (words s)
  | _ => raise AttributeError
  end.

(** ** The outside world *)

Inductive verb := GET | POST.

Record http_request := {
  req_verb : verb;
  req_url : pystr;
  req_data : option (list byte);
  req_verify : bool
}.

(** A response: its status code and its body, [None] when the body is
    not a JSON text. *)
Record response := {
  status_code : Z;
  body : option json
}.

(** The handle of the Last.fm library. *)
Record LastFMNetwork := {
  api_key : option pystr;
  api_secret : option pystr;
  username : option pystr;
  password_hash : pystr
}.

Inductive pylast_call :=
| Connect (network : LastFMNetwork)
| GetSimilar (artist : json) (limit : Z)
| UpdateNowPlaying (artist title album album_artist track_number : json)
| Scrobble (artist : json) (timestamp : Z) (title album album_artist track_number : json).

(** What lies outside the program: the answers the device and Last.fm
    will give to the next calls, the calls made so far, the environment
    variables and the clock; and the module-level state of the program:
    the cache [SIMILAR_ARTISTS], which maps an artist name to a set
    object, and the set objects themselves. *)
Record world := {
  device : list (outcome response);
  sent : list http_request;
  lastfm_similar : list (outcome (list pystr));
  lastfm_acks : list (outcome unit);
  lastfm_calls : list pylast_call;
  SIMILAR_ARTISTS : pydict nat;
  sets : list (gset pystr);
  environ : list (pystr * pystr);
  clock : Z
}.

Definition M := prog world.

Definition session_request (rq : http_request) : M response := fun w =>
  match device w with
  | [] =>
      (Raise ConnectionError,
       {| device := []; sent := sent w ++ [rq];
          lastfm_similar := lastfm_similar w; lastfm_acks := lastfm_acks w;
          lastfm_calls := lastfm_calls w; SIMILAR_ARTISTS := SIMILAR_ARTISTS w;
          sets := sets w; environ := environ w; clock := clock w |})
  | r :: rest =>
      (r,
       {| device := rest; sent := sent w ++ [rq];
          lastfm_similar := lastfm_similar w; lastfm_acks := lastfm_acks w;
          lastfm_calls := lastfm_calls w; SIMILAR_ARTISTS := SIMILAR_ARTISTS w;
          sets := sets w; environ := environ w; clock := clock w |})
  end.

(** [r.json()]. *)
Definition response_json {S} (r : response) : prog S json :=
  match body r with
  | Some j => ret j
  | None => raise JSONDecodeError
  end.

Definition encode {S} (s : pystr) : prog S (list byte) :=
  match str_encode s with
  | Some b => ret b
  | None => raise UnicodeEncodeError
  end.

(** Reading an attribute that [__init__] leaves unset until it is
    assigned. *)
Definition attr {S A} (field : option A) : prog S A :=
  match field with
  | Some a => ret a
  | None => raise AttributeError
  end.

Definition REMOTE_PLAYER_NAME : pystr := lit "Salon (DLNA)".

Record AudioStationRemote := {
  hostname : pystr;
  port : pystr;
  account : pystr;
  password : pystr;
  remote_player : pystr;
  verify : bool;
  last_fm_network : option LastFMNetwork;
  version : Z;
  endpoint : option pystr;
  player_id : option json;
  versions : list (pystr * json)
}.

Definition set_endpoint (e : pystr) (self : AudioStationRemote) :=
  {| hostname := hostname self; port := port self; account := account self;
     password := password self; remote_player := remote_player self;
     verify := verify self; last_fm_network := last_fm_network self;
     version := version self; endpoint := Some e;
     player_id := player_id self; versions := versions self |}.

Definition set_versions (v : list (pystr * json)) (self : AudioStationRemote) :=
  {| hostname := hostname self; port := port self; account := account self;
     password := password self; remote_player := remote_player self;
     verify := verify self; last_fm_network := last_fm_network self;
     version := version self; endpoint := endpoint self;
     player_id := player_id self; versions := v |}.

Definition set_player_id (p : json) (self : AudioStationRemote) :=
  {| hostname := hostname self; port := port self; account := account self;
     password := password self; remote_player := remote_player self;
     verify := verify self; last_fm_network := last_fm_network self;
     version := version self; endpoint := endpoint self;
     player_id := Some p; versions := versions self |}.

(** ** The client *)

Definition request (self : AudioStationRemote) (verb : verb) (path : pystr)
    (data : option pystr) : M response :=
  host <- attr (endpoint self) ;;
  let full_path := lit "https://" ++ host ++ lit "/" ++ path in
  payload <- match data with
             | Some d => b <- encode d ;; ret (Some b)
             | None => ret None
             end ;;
  request <- session_request {| req_verb := verb; req_url := full_path;
                                req_data := payload;
                                req_verify := verify self |} ;;
  envelope <- response_json request ;;
  error_message <- get envelope "error" JNull ;;
  if truthy error_message then raise (RemotePlayerError error_message)
  else ret request.

Definition query_syno_api_info (self : AudioStationRemote) : M json :=
  r <- request self GET
         (lit "webapi/entry.cgi?api=SYNO.API.Info&version=1&method=query")
         None ;;
  response_json r.

Definition login (self : AudioStationRemote) : M json :=
  r <- request self GET
         (lit "webapi/entry.cgi?api=SYNO.API.Auth&version=6&method=login&account="
          ++ account self ++ lit "&passwd=" ++ password self
          ++ lit "&session=AudioStation&format=cookie")
         None ;;
  response_json r.

Definition list_remote_players (self : AudioStationRemote) : M json :=
  r <- request self POST (lit "webapi/AudioStation/remote_player.cgi")
         (Some (lit "api=SYNO.AudioStation.RemotePlayer&version=3&method=list")) ;;
  response_json r.

(** [next(x["id"] for x in players if x["name"] == REMOTE_PLAYER_NAME)]. *)
Fixpoint next_player {S} (players : list json) : prog S json :=
  match players with
  | [] => raise StopIteration
  | x :: rest =>
      name <- getitem x "name" ;;
      if py_eq name (JStr REMOTE_PLAYER_NAME) then getitem x "id"
      else next_player rest
  end.

Definition get_remote_player_id (self : AudioStationRemote)
    : M (AudioStationRemote * json) :=
  listing <- list_remote_players self ;;
  data <- getitem listing "data" ;;
  players <- getitem data "players" ;;
  candidates <- iterate players ;;
  found <- next_player candidates ;;
  ret (set_player_id found self, found).

Definition audio_versions (d : list (pystr * json)) : list (pystr * json) :=
  List.filter (fun kv => str_contains (lit "Audio") (fst kv)) d.

Definition __post_init__ (self : AudioStationRemote) : M AudioStationRemote :=
  let self := set_endpoint (hostname self ++ lit ":" ++ port self) self in
  response <- query_syno_api_info self ;;
  data <- getitem response "data" ;;
  entries <- items data ;;
  let self := set_versions (audio_versions entries) self in
  login self ;;;
  r <- get_remote_player_id self ;;
  ret (fst r).

Definition search_for_artist (self : AudioStationRemote) (artist : pystr) : M json :=
  try_except
    (r <- request self POST (lit "webapi/AudioStation/artist.cgi")
            (Some (lit "api=SYNO.AudioStation.Artist&version=4&method=list&filter="
                   ++ artist
                   ++ lit "&library=all&limit=10&offset=0&additional=avg_rating")) ;;
     envelope <- response_json r ;;
     get envelope "data" (JObj []))
    (fun e =>
       match e with
       | UnicodeEncodeError => ret (JObj [])
       | _ => raise e
       end).

(** ** The Last.fm library

    Each call into the library is recorded and answered by the next
    answer the world holds for that kind of call; a service that has no
    answer left is unreachable. *)

Definition pylast_ack (c : pylast_call) : M unit := fun w =>
  match lastfm_acks w with
  | [] =>
      (Raise NetworkError,
       {| device := device w; sent := sent w;
          lastfm_similar := lastfm_similar w; lastfm_acks := [];
          lastfm_calls := lastfm_calls w ++ [c];
          SIMILAR_ARTISTS := SIMILAR_ARTISTS w;
          sets := sets w; environ := environ w; clock := clock w |})
  | r :: rest =>
      (r,
       {| device := device w; sent := sent w;
          lastfm_similar := lastfm_similar w; lastfm_acks := rest;
          lastfm_calls := lastfm_calls w ++ [c];
          SIMILAR_ARTISTS := SIMILAR_ARTISTS w;
          sets := sets w; environ := environ w; clock := clock w |})
  end.

(** A credential that was given: neither [None] nor the empty string. *)
Definition given (v : option pystr) : bool :=
  match v with
  | Some (_ :: _) => true
  | _ => false
  end.

(** [pylast.LastFMNetwork(...)]: the call is recorded and the object is
    built; the library asks Last.fm for a session key, and can fail on
    the answer, only when the key, the secret, the user name and the
    password hash are all given. *)
Definition new_LastFMNetwork (network : LastFMNetwork) : M unit := fun w =>
  if given (api_key network) && given (api_secret network)
     && (given (username network) && given (Some (password_hash network)))
  then pylast_ack (Connect network) w
  else
    (Ret tt,
     {| device := device w; sent := sent w;
        lastfm_similar := lastfm_similar w; lastfm_acks := lastfm_acks w;
        lastfm_calls := lastfm_calls w ++ [Connect network];
        SIMILAR_ARTISTS := SIMILAR_ARTISTS w;
        sets := sets w; environ := environ w; clock := clock w |}).

(** [network.get_artist(artist).get_similar(limit=limit)], the names of
    the items. *)
Definition pylast_similar (artist : json) (limit : Z) : M (list pystr) := fun w =>
  match lastfm_similar w with
  | [] =>
      (Raise NetworkError,
       {| device := device w; sent := sent w;
          lastfm_similar := []; lastfm_acks := lastfm_acks w;
          lastfm_calls := lastfm_calls w ++ [GetSimilar artist limit];
          SIMILAR_ARTISTS := SIMILAR_ARTISTS w;
          sets := sets w; environ := environ w; clock := clock w |})
  | r :: rest =>
      (r,
       {| device := device w; sent := sent w;
          lastfm_similar := rest; lastfm_acks := lastfm_acks w;
          lastfm_calls := lastfm_calls w ++ [GetSimilar artist limit];
          SIMILAR_ARTISTS := SIMILAR_ARTISTS w;
          sets := sets w; environ := environ w; clock := clock w |})
  end.

Definition get_similar (network : LastFMNetwork) (artist : json) (limit : Z)
    : M (list pystr) :=
  try_except (pylast_similar artist limit)
    (fun e =>
       match e with
       | WSError => ret []
       | _ => raise e
       end).

(** ** Set objects and the module-level cache *)

(** The set behind a reference. *)
Definition deref (l : nat) (w : world) : gset pystr :=
  default ∅ (sets w !! l).

(** [set()]: a new, empty set object. *)
Definition new_set : M nat := fun w =>
  (Ret (length (sets w)),
   {| device := device w; sent := sent w;
      lastfm_similar := lastfm_similar w; lastfm_acks := lastfm_acks w;
      lastfm_calls := lastfm_calls w; SIMILAR_ARTISTS := SIMILAR_ARTISTS w;
      sets := sets w ++ [∅]; environ := environ w; clock := clock w |}).

(** [bool(s)] for a set object. *)
Definition set_truthy (l : nat) : M bool := fun w =>
  (Ret (negb (bool_decide (deref l w = ∅))), w).

(** [s.add(x)]: the object is changed in place, for all who hold it. *)
Definition set_add (l : nat) (x : pystr) : M unit := fun w =>
  (Ret tt,
   {| device := device w; sent := sent w;
      lastfm_similar := lastfm_similar w; lastfm_acks := lastfm_acks w;
      lastfm_calls := lastfm_calls w; SIMILAR_ARTISTS := SIMILAR_ARTISTS w;
      sets := <[l := {[x]} ∪ deref l w]> (sets w);
      environ := environ w; clock := clock w |}).

(** [SIMILAR_ARTISTS.get(artist, default)]; a key that cannot be hashed
    is refused. *)
Definition cache_get (artist : json) (dflt : nat) : M nat := fun w =>
  if hashable artist then (Ret (default dflt (SIMILAR_ARTISTS w !! artist)), w)
  else (Raise TypeError, w).

(** [SIMILAR_ARTISTS[artist] = l]. *)
Definition cache_set (artist : json) (l : nat) : M unit := fun w =>
  if hashable artist then
    (Ret tt,
     {| device := device w; sent := sent w;
        lastfm_similar := lastfm_similar w; lastfm_acks := lastfm_acks w;
        lastfm_calls := lastfm_calls w;
        SIMILAR_ARTISTS := <[artist := l]> (SIMILAR_ARTISTS w);
        sets := sets w; environ := environ w; clock := clock w |})
  else (Raise TypeError, w).

Definition get_similar_artists (self : AudioStationRemote) (artist : json)
    (limit : Z) : M nat :=
  match last_fm_network self with
  | None => new_set
  | Some network =>
      fresh <- new_set ;;
      similar_artists_set <- cache_get artist fresh ;;
      hit <- set_truthy similar_artists_set ;;
      if hit then ret similar_artists_set
      else
        similar_artists <- get_similar network artist limit ;;
        for_each similar_artists (fun artist_ =>
          found <- search_for_artist self artist_ ;;
          artists <- get found "artists" (JArr []) ;;
          candidates <- iterate artists ;;
          for_each candidates (fun similar_artist =>
            name <- getitem similar_artist "name" ;;
            theirs <- words_of name ;;
            if bool_decide (words artist_ ∩ theirs ≠ ∅) then
              name <- getitem similar_artist "name" ;;
              match name with
              | JStr s => set_add similar_artists_set s
              | _ => raise TypeError
              end
            else ret tt)) ;;;
        cache_set artist similar_artists_set ;;;
        ret similar_artists_set
  end.

(** ** Time and the environment *)

Definition time_time : M Z := fun w => (Ret (clock w), w).

Definition sleep (seconds : Z) : M unit := fun w =>
  (Ret tt,
   {| device := device w; sent := sent w;
      lastfm_similar := lastfm_similar w; lastfm_acks := lastfm_acks w;
      lastfm_calls := lastfm_calls w; SIMILAR_ARTISTS := SIMILAR_ARTISTS w;
      sets := sets w; environ := environ w; clock := (clock w + seconds)%Z |}).

Definition getenv (name : string) : M (option pystr) := fun w =>
  (Ret (dget (lit name) (environ w)), w).

(** The local variables of [main]. *)
Record frame := {
  network : option LastFMNetwork;
  remote : option AudioStationRemote;
  current_track : json
}.

(** Truth value of a variable that holds [None] or an object. *)
Definition not_none {A} (o : option A) : bool :=
  match o with
  | Some _ => true
  | None => false
  end.

Definition lift {L A} (m : M A) : prog (L * world) A := fun s =>
  match m (snd s) with
  | (r, w') => (r, (fst s, w'))
  end.

Definition local {A} (f : frame -> A) : prog (frame * world) A := fun s =>
  (Ret (f (fst s)), s).

Definition assign (f : frame -> frame) : prog (frame * world) unit := fun s =>
  (Ret tt, (f (fst s), snd s)).

Definition set_current_track (info : json) (f : frame) : frame :=
  {| network := network f; remote := remote f; current_track := info |}.

Definition set_network_remote (p : LastFMNetwork * AudioStationRemote) (f : frame)
    : frame :=
  {| network := Some (fst p); remote := Some (snd p);
     current_track := current_track f |}.

Section Builtins.

(** Two functions of the Python runtime and of the Last.fm library that
    the program calls and that are not part of it: the text an f-string
    renders for a value that is not a string, and the digest
    [pylast.md5]. *)
Variable repr : json -> pystr.
Variable md5 : option pystr -> outcome pystr.

(** [f"{v}"]. *)
Definition format (v : json) : pystr :=
  match v with
  | JStr s => s
  | _ => repr v
  end.

(** [f"{v}"] for the result of [os.getenv]. *)
Definition format_env (v : option pystr) : pystr :=
  match v with
  | Some s => s
  | None => lit "None"
  end.

Definition get_remote_player_status (self : AudioStationRemote) : M json :=
  id <- attr (player_id self) ;;
  r <- request self POST (lit "webapi/AudioStation/remote_player.cgi")
         (Some (lit "api=SYNO.AudioStation.RemotePlayerStatus&version=1&method=getstatus&id="
                ++ format id ++ lit "&additional=song_tag")) ;;
  envelope <- response_json r ;;
  get envelope "data" (JObj []).

Definition get_now_playing (self : AudioStationRemote) : M json :=
  info <- get_remote_player_status self ;;
  state <- getitem info "state" ;;
  if negb (py_eq state (JStr (lit "playing"))) then ret JNull
  else
    loaded <- getitem info "song" ;;
    additional <- getitem loaded "additional" ;;
    song <- get additional "song_tag" JNull ;;
    if negb (truthy song) then raise (RemotePlayerError (JStr (lit "No info found")))
    else
      loaded <- getitem info "song" ;;
      title <- getitem loaded "title" ;;
      unpack_into [(lit "title", title)] song.

(** The dataclass constructor: the fields are stored, then
    [__post_init__] runs. *)
Definition new_AudioStationRemote (hostname port account password remote_player : pystr)
    (last_fm_network : option LastFMNetwork) : M AudioStationRemote :=
  __post_init__
    {| hostname := hostname; port := port; account := account;
       password := password; remote_player := remote_player;
       verify := false; last_fm_network := last_fm_network;
       version := 1; endpoint := None; player_id := None; versions := [] |}.

Definition setup : M (LastFMNetwork * AudioStationRemote) :=
  key <- getenv "API_KEY" ;;
  secret <- getenv "API_SECRET" ;;
  user <- getenv "SCROBBLE_USERNAME" ;;
  pass <- getenv "SCROBBLE_PASSWORD" ;;
  hash <- (fun w => (md5 pass, w)) ;;
  let network := {| api_key := key; api_secret := secret;
                    username := user; password_hash := hash |} in
  new_LastFMNetwork network ;;;
  DSM_HOSTNAME <- getenv "DSM_HOSTNAME" ;;
  USERNAME <- getenv "USERNAME" ;;
  PASSWORD <- getenv "PASSWORD" ;;
  remote <- new_AudioStationRemote (format_env DSM_HOSTNAME) (lit "5001")
              (format_env USERNAME) (format_env PASSWORD)
              REMOTE_PLAYER_NAME (Some network) ;;
  ret (network, remote).

(** The statements of the loop that report a new track: the log line,
    [network.update_now_playing(...)] and [network.scrobble(...)]. *)
Definition announce (network : option LastFMNetwork) (info : json) : M unit :=
  getitem info "title" ;;; getitem info "artist" ;;; getitem info "album" ;;;
  attr network ;;;
  artist <- getitem info "artist" ;;
  title <- getitem info "title" ;;
  album <- getitem info "album" ;;
  album_artist <- getitem info "album_artist" ;;
  track <- getitem info "track" ;;
  pylast_ack (UpdateNowPlaying artist title album album_artist track) ;;;
  attr network ;;;
  artist <- getitem info "artist" ;;
  timestamp <- time_time ;;
  title <- getitem info "title" ;;
  album <- getitem info "album" ;;
  album_artist <- getitem info "album_artist" ;;
  track <- getitem info "track" ;;
  pylast_ack (Scrobble artist timestamp title album album_artist track).

(** The body of the [try] statement of the loop. *)
Definition poll : prog (frame * world) unit :=
  client <- (r <- local remote ;; attr r) ;;
  info <- lift (get_now_playing client) ;;
  last_seen <- local current_track ;;
  if truthy info && negb (py_eq last_seen info) then
    tracker <- local network ;;
    lift (announce tracker info) ;;;
    assign (set_current_track info) ;;;
    artist <- getitem info "artist" ;;
    lift (get_similar_artists client artist 30) ;;;
    ret tt
  else ret tt.

(** One turn of [while True]. *)
Definition main_iteration : prog (frame * world) unit :=
  n <- local network ;;
  r <- local remote ;;
  (if negb (not_none n || not_none r) then
     p <- lift setup ;;
     assign (set_network_remote p)
   else ret tt) ;;;
  try_except poll
    (fun e =>
       match e with
       | NetworkError => lift (sleep 10)
       | _ => raise e
       end) ;;;
  lift (sleep 5).

(** [while True] never ends by itself; [main_loop turns] is its first
    [turns] turns. *)
Fixpoint main_loop (turns : nat) : prog (frame * world) unit :=
  match turns with
  | O => ret tt
  | S turns' => main_iteration ;;; main_loop turns'
  end.

Definition main (turns : nat) : prog (frame * world) unit :=
  assign (fun _ => {| network := None; remote := None; current_track := JObj [] |}) ;;;
  main_loop turns.

End Builtins.

(** ** Sample data *)

Definition reply (status : Z) (envelope : list (pystr * json)) : outcome response :=
  Ret {| status_code := status; body := Some (JObj envelope) |}.

Definition world_of (answers : list (outcome response))
    (similar : list (outcome (list pystr))) (acks : list (outcome unit)) : world :=
  {| device := answers; sent := []; lastfm_similar := similar;
     lastfm_acks := acks; lastfm_calls := []; SIMILAR_ARTISTS := ∅;
     sets := []; environ := []; clock := 0 |}.

Definition sample_network : LastFMNetwork :=
  {| api_key := Some (lit "key"); api_secret := Some (lit "secret");
     username := Some (lit "listener"); password_hash := lit "0f" |}.

(** A client as [setup] leaves it once construction has succeeded. *)
Definition ready_client : AudioStationRemote :=
  {| hostname := lit "nas"; port := lit "5001"; account := lit "me";
     password := lit "pw"; remote_player := REMOTE_PLAYER_NAME;
     verify := false; last_fm_network := Some sample_network;
     version := 1; endpoint := Some (lit "nas:5001");
     player_id := Some (JStr (lit "uuid:1")); versions := [] |}.

(** A client as the dataclass constructor hands it to [__post_init__]. *)
Definition blank_client (target : pystr) : AudioStationRemote :=
  {| hostname := lit "nas"; port := lit "5001"; account := lit "me";
     password := lit "pw"; remote_player := target;
     verify := false; last_fm_network := Some sample_network;
     version := 1; endpoint := None; player_id := None; versions := [] |}.

Definition sample_repr (v : json) : pystr :=
  match v with
  | JNull => lit "None"
  | JBool true => lit "True"
  | JBool false => lit "False"
  | _ => []
  end.

Definition error_119 : json := JObj [(lit "code", JInt 119)].

(** The state in which [request] leaves the world once the device has
    answered. *)
Definition answered (rq : http_request) (rest : list (outcome response))
    (w : world) : world :=
  {| device := rest; sent := sent w ++ [rq];
     lastfm_similar := lastfm_similar w; lastfm_acks := lastfm_acks w;
     lastfm_calls := lastfm_calls w; SIMILAR_ARTISTS := SIMILAR_ARTISTS w;
     sets := sets w; environ := environ w; clock := clock w |}.

Definition sample_tag : list (pystr * json) :=
  [(lit "album", JStr (lit "Kind of Blue"));
   (lit "album_artist", JStr (lit "Miles Davis"));
   (lit "artist", JStr (lit "Miles Davis"));
   (lit "comment", JStr []);
   (lit "composer", JStr []);
   (lit "disc", JInt 1);
   (lit "genre", JStr (lit "Jazz"));
   (lit "track", JInt 1);
   (lit "year", JInt 1959)].

Definition sample_song (additional : list (pystr * json)) : json :=
  JObj [(lit "additional", JObj additional);
        (lit "id", JStr (lit "music_1"));
        (lit "path", JStr (lit "/music/so_what.flac"));
        (lit "title", JStr (lit "So What"));
        (lit "type", JStr (lit "file"))].

Definition sample_status (state : string) (additional : list (pystr * json))
    : list (pystr * json) :=
  [(lit "index", JInt 0);
   (lit "song", sample_song additional);
   (lit "state", JStr (lit state));
   (lit "volume", JInt 40)].

Definition status_reply (state : string) (additional : list (pystr * json))
    : outcome response :=
  reply 200 [(lit "data", JObj (sample_status state additional));
             (lit "success", JBool true)].


(** A player entry whose display name is exactly [target]. *)
Definition named (target : pystr) (p : json) : Prop :=
  exists d, p = JObj d /\ dget (lit "name") d = Some (JStr target).

(** A player entry that carries a display name at all. *)
Definition has_name (p : json) : Prop :=
  exists d name, p = JObj d /\ dget (lit "name") d = Some name.

Definition player (id name : string) : json :=
  JObj [(lit "id", JStr (lit id)); (lit "name", JStr (lit name))].

Definition players_reply (players : list json) : outcome response :=
  reply 200 [(lit "data", JObj [(lit "players", JArr players)]);
             (lit "success", JBool true)].

Definition descriptor (path : string) : json :=
  JObj [(lit "maxVersion", JInt 3); (lit "minVersion", JInt 1);
        (lit "path", JStr (lit path))].

Definition sample_capabilities : list (pystr * json) :=
  [(lit "SYNO.API.Auth", descriptor "entry.cgi");
   (lit "SYNO.AudioStation.Info", descriptor "AudioStation/info.cgi");
   (lit "SYNO.AudioStation.RemotePlayer", descriptor "AudioStation/remote_player.cgi");
   (lit "SYNO.FileStation.List", descriptor "entry.cgi")].

Definition discovery_reply : outcome response :=
  reply 200 [(lit "data", JObj sample_capabilities); (lit "success", JBool true)].

Definition login_ok_reply : outcome response :=
  reply 200 [(lit "success", JBool true)].

Definition login_error_reply : outcome response :=
  reply 200 [(lit "error", JObj [(lit "code", JInt 400)]);
             (lit "success", JBool false)].

Definition artists_reply (names : list string) : outcome response :=
  reply 200 [(lit "data",
              JObj [(lit "artists",
                     JArr (map (fun n => JObj [(lit "name", JStr (lit n))]) names))]);
             (lit "success", JBool true)].

(** Last.fm knows one artist close to the one asked for, and the device
    has two artists that share a word with that one. *)
Definition coltrane_world : world :=
  world_of [artists_reply ["John Coltrane"; "Alice Coltrane"; "Ornette Coleman"]%string]
           [Ret [lit "John Coltrane"]] [].

(** A program that leaves the state as it found it. *)
Definition stateless {S A} (m : prog S A) : Prop :=
  forall s out s', m s = (out, s') -> s' = s.

(** A program that only adds to the record of Last.fm calls. *)
Definition log_grows {A} (m : M A) : Prop :=
  forall w out w', m w = (out, w') ->
  exists more, lastfm_calls w' = lastfm_calls w ++ more.

(** The state in which a call into Last.fm that returns nothing of
    interest leaves the world. *)
Definition acked (c : pylast_call) (rest : list (outcome unit)) (w : world) : world :=
  {| device := device w; sent := sent w;
     lastfm_similar := lastfm_similar w; lastfm_acks := rest;
     lastfm_calls := lastfm_calls w ++ [c];
     SIMILAR_ARTISTS := SIMILAR_ARTISTS w;
     sets := sets w; environ := environ w; clock := clock w |}.

(** The local variables of [main] once [setup] has run and nothing has
    been played yet. *)
Definition fresh_frame : frame :=
  {| network := Some sample_network; remote := Some ready_client;
     current_track := JObj [] |}.

(** The tracker of the sample: the title and the tags of the song. *)
Definition sample_track : list (pystr * json) :=
  (lit "title", JStr (lit "So What")) :: sample_tag.

Definition sample_md5 (text : option pystr) : outcome pystr :=
  match text with
  | Some _ => Ret (lit "0f")
  | None => Raise AttributeError
  end.

(** The device reports the same playing track twice; Last.fm accepts the
    now-playing update and fails on the scrobble. *)
Definition flaky_world : world :=
  world_of [status_reply "playing" [(lit "song_tag", JObj sample_tag)];
            status_reply "playing" [(lit "song_tag", JObj sample_tag)]]
           [] [Ret tt; Raise NetworkError].

(** A program every run of which relates the state it starts from to the
    state it ends in. *)
Definition respects {A} (R : world -> world -> Prop) (m : M A) : Prop :=
  forall w out w', m w = (out, w') -> R w w'.

(** Nothing but the exchange with the device has changed. *)
Definition device_only (w w' : world) : Prop :=
  lastfm_similar w' = lastfm_similar w /\
  lastfm_acks w' = lastfm_acks w /\
  lastfm_calls w' = lastfm_calls w /\
  SIMILAR_ARTISTS w' = SIMILAR_ARTISTS w /\
  sets w' = sets w /\
  environ w' = environ w /\
  clock w' = clock w.

(** The cache maps the same names to the same set objects. *)
Definition cache_kept (w w' : world) : Prop :=
  SIMILAR_ARTISTS w' = SIMILAR_ARTISTS w.

(** The request [request] hands to the session. *)
Definition request_of (self : AudioStationRemote) (host : pystr) (v : verb)
    (path : pystr) (data : option pystr) : http_request :=
  {| req_verb := v;
     req_url := lit "https://" ++ host ++ lit "/" ++ path;
     req_data := match data with
                 | Some d => str_encode d
                 | None => None
                 end;
     req_verify := verify self |}.

(** What holds of every member of the set behind [c] still holds of
    every member afterwards. *)
Definition members_kept (c : nat) (Q : pystr -> Prop) (w w' : world) : Prop :=
  (forall x, x ∈ deref c w -> Q x) -> forall x, x ∈ deref c w' -> Q x.

(** Two names share a word, in the sense of [get_similar_artists]. *)
Definition share_a_word (a b : pystr) : Prop :=
  words a ∩ words b ≠ ∅.

(** A client that was built without a Last.fm network. *)
Definition offline_client : AudioStationRemote :=
  {| hostname := lit "nas"; port := lit "5001"; account := lit "me";
     password := lit "pw"; remote_player := REMOTE_PLAYER_NAME;
     verify := false; last_fm_network := None;
     version := 1; endpoint := Some (lit "nas:5001");
     player_id := Some (JStr (lit "uuid:1")); versions := [] |}.

(** The three requests of a construction that succeeds. *)
Definition construction_requests (self : AudioStationRemote) : list http_request :=
  let host := hostname self ++ lit ":" ++ port self in
  [request_of self host GET
     (lit "webapi/entry.cgi?api=SYNO.API.Info&version=1&method=query") None;
   request_of self host GET
     (lit "webapi/entry.cgi?api=SYNO.API.Auth&version=6&method=login&account="
      ++ account self ++ lit "&passwd=" ++ password self
      ++ lit "&session=AudioStation&format=cookie") None;
   request_of self host POST (lit "webapi/AudioStation/remote_player.cgi")
     (Some (lit "api=SYNO.AudioStation.RemotePlayer&version=3&method=list"))].

(** A device that answers the three requests of a construction. *)
Definition welcoming_world : world :=
  {| device := [discovery_reply; login_ok_reply;
                players_reply [player "uuid:0" "Kitchen";
                               player "uuid:1" "Salon (DLNA)"]];
     sent := []; lastfm_similar := []; lastfm_acks := [Ret tt];
     lastfm_calls := []; SIMILAR_ARTISTS := ∅; sets := [];
     environ := [(lit "DSM_HOSTNAME", lit "nas");
                 (lit "SCROBBLE_PASSWORD", lit "secret")];
     clock := 0 |}.

(** The four Last.fm credentials are set, and Last.fm refuses the
    connection. *)
Definition unreachable_lastfm_world : world :=
  {| device := [discovery_reply]; sent := []; lastfm_similar := [];
     lastfm_acks := [Raise NetworkError]; lastfm_calls := [];
     SIMILAR_ARTISTS := ∅; sets := [];
     environ := [(lit "API_KEY", lit "key"); (lit "API_SECRET", lit "shh");
                 (lit "SCROBBLE_USERNAME", lit "listener");
                 (lit "SCROBBLE_PASSWORD", lit "secret")];
     clock := 0 |}.

(** The clock shows the same time. *)
Definition clock_kept (w w' : world) : Prop := clock w' = clock w.

(** The device reports a pause, twice. *)
Definition paused_world : world :=
  world_of [status_reply "paused" [(lit "song_tag", JObj sample_tag)];
            status_reply "paused" [(lit "song_tag", JObj sample_tag)]]
           [] [Ret tt; Ret tt].

(** The device reports the sample track; Last.fm takes both reports and
    knows no similar artist. *)
Definition playing_world : world :=
  world_of [status_reply "playing" [(lit "song_tag", JObj sample_tag)];
            status_reply "playing" [(lit "song_tag", JObj sample_tag)]]
           [Raise WSError] [Ret tt; Ret tt].

(** The local variables of [main] once the sample track has been
    reported. *)
Definition seen_frame : frame :=
  {| network := Some sample_network; remote := Some ready_client;
     current_track := JObj sample_track |}.

(** The device answers the status query with an error. *)
Definition refusing_world : world :=
  world_of [reply 200 [(lit "error", error_119); (lit "success", JBool false)]]
           [] [Ret tt; Ret tt].

(** The device reports a playing track whose tags name no artist. *)
Definition anonymous_world : world :=
  world_of [status_reply "playing"
              [(lit "song_tag", JObj [(lit "album", JStr (lit "Untitled"))])]]
           [] [Ret tt; Ret tt].

(** Every set object that was there is still there with the members it
    had, the one behind [c] apart. *)
Definition other_sets_kept (c : nat) (w w' : world) : Prop :=
  (length (sets w) <= length (sets w'))%nat /\
  forall l, l <> c -> (l < length (sets w))%nat -> sets w' !! l = sets w !! l.

(** The name is in the cache with an empty set; Last.fm knows a similar
    artist, the device finds two artists for it and then fails. *)
Definition half_done_world : world :=
  {| device := [artists_reply ["John Coltrane"; "Alice Coltrane"]%string;
                reply 200 [(lit "error", error_119); (lit "success", JBool false)]];
     sent := [];
     lastfm_similar := [Ret [lit "John Coltrane"; lit "Ornette Coleman"]];
     lastfm_acks := []; lastfm_calls := [];
     SIMILAR_ARTISTS := [(JStr (lit "Miles Davis"), 0%nat);
                         (JStr (lit "Bill Evans"), 1%nat)];
     sets := [∅; {[lit "Jim Hall"]}]; environ := []; clock := 0 |}.

(** The device reports the same playing track twice; Last.fm takes both
    reports of it and then fails, with a network error, on the lookup of
    the similar artists. *)
Definition lookup_outage_world : world :=
  world_of [status_reply "playing" [(lit "song_tag", JObj sample_tag)];
            status_reply "playing" [(lit "song_tag", JObj sample_tag)]]
           [Raise NetworkError] [Ret tt; Ret tt].

(** No set object has lost a member. *)
Definition sets_grow (w w' : world) : Prop :=
  forall l, deref l w ⊆ deref l w'.

(** * Properties *)

Lemma str_eqb_eq a b : str_eqb a b = true <-> a = b.
Proof.
  revert b; induction a as [|x a IH]; intros [|y b]; simpl; try easy.
  rewrite andb_true_iff, N.eqb_eq, IH. split.
  - intros [-> ->]; reflexivity.
  - intros [= -> ->]; auto.
Qed.

Lemma str_eqb_refl a : str_eqb a a = true.
Proof. apply str_eqb_eq; reflexivity. Qed.

Lemma str_eqb_neq a b : str_eqb a b = false <-> a <> b.
Proof.
  rewrite <- str_eqb_eq. destruct (str_eqb a b); split; congruence.
Qed.

Lemma py_eq_str v s : py_eq v (JStr s) = true <-> v = JStr s.
Proof.
  destruct v; simpl; try (split; congruence).
  rewrite str_eqb_eq. split; congruence.
Qed.

Lemma SFeqb_refl f : f <> S754_nan -> SFeqb f f = true.
Proof.
  intros Hf. unfold SFeqb, SFcompare.
  destruct f as [s|s| |s m e]; [reflexivity| |contradiction|].
  - destruct s; reflexivity.
  - destruct s; rewrite Z.compare_refl;
      change (Pos.compare_cont Eq m m) with (Pos.compare m m);
      rewrite Pos.compare_refl; reflexivity.
Qed.

(** A key that can be hashed is found under itself. *)
Lemma key_eq_refl k : hashable k = true -> key_eq k k = true.
Proof.
  unfold key_eq. destruct k as [ |b|n|f|s|l|d]; cbn [hashable py_eq is_nan];
    try discriminate; intros _.
  - reflexivity.
  - rewrite Z.eqb_refl. apply orb_true_r.
  - rewrite Z.eqb_refl. reflexivity.
  - destruct f as [s|s| |s m e]; try reflexivity;
      rewrite SFeqb_refl by discriminate; reflexivity.
  - rewrite str_eqb_refl. reflexivity.
Qed.

Lemma lookup_kset_eq {V} k (v : V) (d : pydict V) :
  key_eq k k = true -> <[k := v]> d !! k = Some v.
Proof.
  intros Hk. unfold insert, lookup, pydict_insert, pydict_lookup.
  induction d as [|[k' v'] d IH]; cbn [kset kget].
  - rewrite Hk. reflexivity.
  - destruct (key_eq k' k) eqn:E; cbn [kget]; rewrite E; [reflexivity | exact IH].
Qed.

(** Running a sequence whose first step is known. *)
Lemma bind_ret {S A B} (m : prog S A) (k : A -> prog S B) s a s' :
  m s = (Ret a, s') -> bind m k s = k a s'.
Proof. unfold bind; intros ->; reflexivity. Qed.

Lemma bind_raise {S A B} (m : prog S A) (k : A -> prog S B) s e s' :
  m s = (Raise e, s') -> bind m k s = (Raise e, s').
Proof. unfold bind; intros ->; reflexivity. Qed.

Lemma request_answered self v path data w host payload r rest envelope :
  endpoint self = Some host ->
  match data with Some d => str_encode d = Some payload | None => True end ->
  device w = Ret r :: rest ->
  body r = Some (JObj envelope) ->
  request self v path data w =
    (let err := default JNull (dget (lit "error") envelope) in
     if truthy err then Raise (RemotePlayerError err) else Ret r,
     answered {| req_verb := v;
                 req_url := lit "https://" ++ host ++ lit "/" ++ path;
                 req_data := match data with Some _ => Some payload | None => None end;
                 req_verify := verify self |} rest w).
Proof.
  intros Hend Henc Hdev Hbody.
  unfold request. rewrite Hend. simpl attr.
  erewrite bind_ret by reflexivity.
  destruct data as [d|].
  - unfold encode. rewrite Henc.
    erewrite bind_ret by reflexivity.
    erewrite bind_ret by (unfold session_request; rewrite Hdev; reflexivity).
    unfold response_json. rewrite Hbody.
    erewrite bind_ret by reflexivity.
    unfold get. destruct (dget (lit "error") envelope) as [err|]; simpl.
    + erewrite bind_ret by reflexivity. destruct (truthy err); reflexivity.
    + reflexivity.
  - erewrite bind_ret by reflexivity.
    erewrite bind_ret by (unfold session_request; rewrite Hdev; reflexivity).
    unfold response_json. rewrite Hbody.
    erewrite bind_ret by reflexivity.
    unfold get. destruct (dget (lit "error") envelope) as [err|]; simpl.
    + erewrite bind_ret by reflexivity. destruct (truthy err); reflexivity.
    + reflexivity.
Qed.

(** C1. Whatever the verb and whatever the status code, once the device
    has answered with an envelope, [request] raises [RemotePlayerError]
    carrying the envelope's [error] member when that member is truthy
    (present and not empty), and returns the response, whose [json()] is
    the envelope, otherwise. *)
Theorem request_error_envelope self v path data w host r rest envelope :
  endpoint self = Some host ->
  (forall d, data = Some d -> str_encode d <> None) ->
  device w = Ret r :: rest ->
  body r = Some (JObj envelope) ->
  fst (request self v path data w) =
    match dget (lit "error") envelope with
    | Some error =>
        if truthy error then Raise (RemotePlayerError error) else Ret r
    | None => Ret r
    end.
Proof.
  intros Hend Henc Hdev Hbody.
  assert (exists payload,
    match data with Some d => str_encode d = Some payload | None => True end)
    as [payload Hp].
  { destruct data as [d|]; [|exists []; exact I].
    destruct (str_encode d) as [b|] eqn:E; [exists b; reflexivity|].
    exfalso; exact (Henc d eq_refl E). }
  rewrite (request_answered self v path data w host payload r rest envelope)
    by assumption.
  simpl. destruct (dget (lit "error") envelope); reflexivity.
Qed.

Lemma request_error_envelope_witness :
  fst (request ready_client POST (lit "webapi/AudioStation/remote_player.cgi")
         (Some (lit "api=SYNO.AudioStation.RemotePlayer&version=3&method=list"))
         (world_of [reply 500 [(lit "success", JBool false);
                               (lit "error", error_119)]] [] []))
  = Raise (RemotePlayerError error_119).
Proof.
  apply (request_error_envelope ready_client POST _ _ _ (lit "nas:5001")
           {| status_code := 500;
              body := Some (JObj [(lit "success", JBool false);
                                  (lit "error", error_119)]) |}
           [] [(lit "success", JBool false); (lit "error", error_119)]).
  - reflexivity.
  - intros d [= <-]. vm_compute. discriminate.
  - reflexivity.
  - reflexivity.
Defined.

Lemma str_encode_app a b :
  str_encode (a ++ b) =
    match str_encode a, str_encode b with
    | Some x, Some y => Some (x ++ y)
    | _, _ => None
    end.
Proof.
  induction a as [|c a IH]; simpl.
  - destruct (str_encode b); reflexivity.
  - rewrite IH. destruct (utf8_codepoint c); [|reflexivity].
    destruct (str_encode a); [|reflexivity].
    destruct (str_encode b); [|reflexivity].
    rewrite app_assoc. reflexivity.
Qed.

(** C8. A name that has no UTF-8 encoding makes [search_for_artist]
    return the empty dictionary: the encoding error raised while the
    request is prepared is caught, and nothing is sent. *)
Theorem search_for_artist_unencodable self artist w host :
  endpoint self = Some host ->
  str_encode artist = None ->
  search_for_artist self artist w = (Ret (JObj []), w).
Proof.
  intros Hend Henc. unfold search_for_artist, try_except.
  assert (request self POST (lit "webapi/AudioStation/artist.cgi")
            (Some (lit "api=SYNO.AudioStation.Artist&version=4&method=list&filter="
                   ++ artist
                   ++ lit "&library=all&limit=10&offset=0&additional=avg_rating")) w
          = (Raise UnicodeEncodeError, w)) as Hreq.
  { unfold request. rewrite Hend. simpl attr.
    erewrite bind_ret by reflexivity.
    apply bind_raise. apply bind_raise.
    unfold encode. rewrite !str_encode_app, Henc.
    destruct (str_encode (lit _)); reflexivity. }
  erewrite bind_raise by exact Hreq. reflexivity.
Qed.

Lemma search_for_artist_unencodable_witness :
  search_for_artist ready_client [0x4D; 0xD83C; 0x41] (world_of [] [] [])
  = (Ret (JObj []), world_of [] [] []).
Proof.
  apply (search_for_artist_unencodable ready_client _ _ (lit "nas:5001")).
  - reflexivity.
  - vm_compute. reflexivity.
Defined.

Lemma dget_dset {V} k k' (v : V) d :
  dget k (dset k' v d) = if str_eqb k k' then Some v else dget k d.
Proof.
  induction d as [|[k0 v0] d IH]; simpl.
  - destruct (str_eqb k k'); reflexivity.
  - destruct (str_eqb k' k0) eqn:E0; simpl.
    + apply str_eqb_eq in E0; subst k0.
      destruct (str_eqb k k'); reflexivity.
    + rewrite IH. destruct (str_eqb k k') eqn:E; [|reflexivity].
      apply str_eqb_eq in E; subst k'. rewrite E0. reflexivity.
Qed.

Lemma dget_None {V} k (d : list (pystr * V)) :
  dget k d = None <-> k ∉ d.*1.
Proof.
  induction d as [|[k0 v0] d IH]; simpl.
  - split; [intros _; apply not_elem_of_nil | reflexivity].
  - rewrite not_elem_of_cons, <- IH.
    destruct (str_eqb k k0) eqn:E.
    + apply str_eqb_eq in E. split; [discriminate | intros [? _]; contradiction].
    + apply str_eqb_neq in E. tauto.
Qed.

(** Looking a key up in [{**d1, **d2}]. *)
Lemma dget_dict_update {V} k (d1 d2 : list (pystr * V)) :
  NoDup d2.*1 ->
  dget k (dict_update d1 d2) =
    match dget k d2 with
    | Some v => Some v
    | None => dget k d1
    end.
Proof.
  unfold dict_update. revert d1.
  induction d2 as [|[k' v'] d2 IH]; intros d1 Hnd; simpl; [reflexivity|].
  apply NoDup_cons in Hnd as [Hk Hnd].
  rewrite IH by assumption. rewrite dget_dset.
  destruct (str_eqb k k') eqn:E; [|reflexivity].
  apply str_eqb_eq in E; subst k'.
  apply dget_None in Hk. simpl in *. rewrite Hk. reflexivity.
Qed.

(** C5. When the status reports a state other than [playing],
    [get_now_playing] returns [None], whatever else the status holds. *)
Theorem get_now_playing_not_playing repr self w info state w' :
  get_remote_player_status repr self w = (Ret (JObj info), w') ->
  dget (lit "state") info = Some state ->
  state <> JStr (lit "playing") ->
  get_now_playing repr self w = (Ret JNull, w').
Proof.
  intros Hstatus Hstate Hne. unfold get_now_playing.
  erewrite bind_ret by exact Hstatus.
  unfold getitem at 1. rewrite Hstate.
  erewrite bind_ret by reflexivity.
  destruct (py_eq state (JStr (lit "playing"))) eqn:E; [|reflexivity].
  apply py_eq_str in E. contradiction.
Qed.

Lemma get_now_playing_not_playing_witness :
  get_now_playing sample_repr ready_client
    (world_of [status_reply "paused" [(lit "song_tag", JObj sample_tag)]] [] [])
  = (Ret JNull,
     snd (get_remote_player_status sample_repr ready_client
            (world_of [status_reply "paused" [(lit "song_tag", JObj sample_tag)]] [] []))).
Proof.
  apply (get_now_playing_not_playing sample_repr ready_client _
           (sample_status "paused" [(lit "song_tag", JObj sample_tag)])
           (JStr (lit "paused"))).
  - vm_compute. reflexivity.
  - reflexivity.
  - vm_compute. discriminate.
Defined.

(** C4. When the status reports [playing] and the song's additional
    fields hold no [song_tag], [get_now_playing] raises
    [RemotePlayerError("No info found")] and returns nothing. *)
Theorem get_now_playing_untagged repr self w info song additional w' :
  get_remote_player_status repr self w = (Ret (JObj info), w') ->
  dget (lit "state") info = Some (JStr (lit "playing")) ->
  dget (lit "song") info = Some (JObj song) ->
  dget (lit "additional") song = Some (JObj additional) ->
  dget (lit "song_tag") additional = None ->
  get_now_playing repr self w
  = (Raise (RemotePlayerError (JStr (lit "No info found"))), w').
Proof.
  intros Hstatus Hstate Hsong Hadd Htag. unfold get_now_playing.
  erewrite bind_ret by exact Hstatus.
  unfold getitem at 1. rewrite Hstate.
  erewrite bind_ret by reflexivity.
  replace (py_eq (JStr (lit "playing")) (JStr (lit "playing"))) with true
    by (symmetry; apply py_eq_str; reflexivity).
  change (negb true) with false. cbv iota.
  unfold getitem at 1. rewrite Hsong.
  erewrite bind_ret by reflexivity.
  unfold getitem at 1. rewrite Hadd.
  erewrite bind_ret by reflexivity.
  unfold get. rewrite Htag.
  erewrite bind_ret by reflexivity.
  reflexivity.
Qed.

Lemma get_now_playing_untagged_witness :
  get_now_playing sample_repr ready_client
    (world_of [status_reply "playing" [(lit "song_rating", JInt 4)]] [] [])
  = (Raise (RemotePlayerError (JStr (lit "No info found"))),
     snd (get_remote_player_status sample_repr ready_client
            (world_of [status_reply "playing" [(lit "song_rating", JInt 4)]] [] []))).
Proof.
  apply (get_now_playing_untagged sample_repr ready_client _
           (sample_status "playing" [(lit "song_rating", JInt 4)])
           [(lit "additional", JObj [(lit "song_rating", JInt 4)]);
            (lit "id", JStr (lit "music_1"));
            (lit "path", JStr (lit "/music/so_what.flac"));
            (lit "title", JStr (lit "So What"));
            (lit "type", JStr (lit "file"))]
           [(lit "song_rating", JInt 4)]).
  - vm_compute. reflexivity.
  - reflexivity.
  - reflexivity.
  - reflexivity.
  - reflexivity.
Defined.

(** C3, as stated, fails on two inputs: a [song_tag] that has a [title]
    of its own overrides the song's title in the merged record, and a
    [song_tag] that is present but empty raises instead of returning. *)
Lemma get_now_playing_title_overridden :
  fst (get_now_playing sample_repr ready_client
         (world_of [status_reply "playing"
                      [(lit "song_tag",
                        JObj [(lit "artist", JStr (lit "Miles Davis"));
                              (lit "title", JStr (lit "Blue in Green"))])]] [] []))
  = Ret (JObj [(lit "title", JStr (lit "Blue in Green"));
               (lit "artist", JStr (lit "Miles Davis"))])
  /\ dget (lit "title")
       [(lit "additional", JObj [(lit "song_tag",
                        JObj [(lit "artist", JStr (lit "Miles Davis"));
                              (lit "title", JStr (lit "Blue in Green"))])]);
        (lit "id", JStr (lit "music_1"));
        (lit "path", JStr (lit "/music/so_what.flac"));
        (lit "title", JStr (lit "So What"));
        (lit "type", JStr (lit "file"))]
     = Some (JStr (lit "So What"))
  /\ fst (get_now_playing sample_repr ready_client
            (world_of [status_reply "playing" [(lit "song_tag", JObj [])]] [] []))
     = Raise (RemotePlayerError (JStr (lit "No info found"))).
Proof. vm_compute. repeat split. Qed.

(** C3, amended. When the status reports [playing], the song has a
    title and its [song_tag] is a dictionary that is not empty,
    [get_now_playing] returns [{"title": song["title"], **song_tag}]:
    every key of [song_tag] is in the result with the value it has in
    [song_tag]; [title] holds the song's title unless [song_tag] has a
    [title] of its own; and the result has no other key. *)
Theorem get_now_playing_merged repr self w info song additional tag title w' :
  get_remote_player_status repr self w = (Ret (JObj info), w') ->
  dget (lit "state") info = Some (JStr (lit "playing")) ->
  dget (lit "song") info = Some (JObj song) ->
  dget (lit "additional") song = Some (JObj additional) ->
  dget (lit "song_tag") additional = Some (JObj tag) ->
  tag <> [] ->
  NoDup tag.*1 ->
  dget (lit "title") song = Some title ->
  exists merged,
    get_now_playing repr self w = (Ret (JObj merged), w') /\
    merged = dict_update [(lit "title", title)] tag /\
    (forall k v, dget k tag = Some v -> dget k merged = Some v) /\
    (dget (lit "title") tag = None -> dget (lit "title") merged = Some title) /\
    (forall k, dget k tag = None -> k <> lit "title" -> dget k merged = None).
Proof.
  intros Hstatus Hstate Hsong Hadd Htag Hne Hnd Htitle.
  exists (dict_update [(lit "title", title)] tag). split; [|split; [reflexivity|]].
  - unfold get_now_playing.
    erewrite bind_ret by exact Hstatus.
    unfold getitem at 1. rewrite Hstate.
    erewrite bind_ret by reflexivity.
    replace (py_eq (JStr (lit "playing")) (JStr (lit "playing"))) with true
      by (symmetry; apply py_eq_str; reflexivity).
    change (negb true) with false. cbv iota.
    unfold getitem at 1. rewrite Hsong.
    erewrite bind_ret by reflexivity.
    unfold getitem at 1. rewrite Hadd.
    erewrite bind_ret by reflexivity.
    unfold get. rewrite Htag.
    erewrite bind_ret by reflexivity.
    replace (truthy (JObj tag)) with true
      by (destruct tag; [contradiction | reflexivity]).
    change (negb true) with false. cbv iota.
    unfold getitem at 1. rewrite Hsong.
    erewrite bind_ret by reflexivity.
    unfold getitem at 1. rewrite Htitle.
    erewrite bind_ret by reflexivity.
    reflexivity.
  - repeat split.
    + intros k v Hk. rewrite dget_dict_update by assumption.
      rewrite Hk. reflexivity.
    + intros Hk. rewrite dget_dict_update by assumption.
      rewrite Hk. reflexivity.
    + intros k Hk Hkt. rewrite dget_dict_update by assumption.
      rewrite Hk. cbn [dget].
      destruct (str_eqb k (lit "title")) eqn:E; [|reflexivity].
      apply str_eqb_eq in E. contradiction.
Qed.

Lemma get_now_playing_merged_witness :
  exists merged,
    get_now_playing sample_repr ready_client
      (world_of [status_reply "playing" [(lit "song_tag", JObj sample_tag)]] [] [])
    = (Ret (JObj merged),
       snd (get_remote_player_status sample_repr ready_client
              (world_of [status_reply "playing"
                           [(lit "song_tag", JObj sample_tag)]] [] []))) /\
    merged = dict_update [(lit "title", JStr (lit "So What"))] sample_tag /\
    (forall k v, dget k sample_tag = Some v -> dget k merged = Some v) /\
    (dget (lit "title") sample_tag = None ->
     dget (lit "title") merged = Some (JStr (lit "So What"))) /\
    (forall k, dget k sample_tag = None -> k <> lit "title" -> dget k merged = None).
Proof.
  apply (get_now_playing_merged sample_repr ready_client _
           (sample_status "playing" [(lit "song_tag", JObj sample_tag)])
           [(lit "additional", JObj [(lit "song_tag", JObj sample_tag)]);
            (lit "id", JStr (lit "music_1"));
            (lit "path", JStr (lit "/music/so_what.flac"));
            (lit "title", JStr (lit "So What"));
            (lit "type", JStr (lit "file"))]
           [(lit "song_tag", JObj sample_tag)]).
  - vm_compute. reflexivity.
  - reflexivity.
  - reflexivity.
  - reflexivity.
  - reflexivity.
  - discriminate.
  - apply (@bool_decide_unpack _ (NoDup_dec (A:=list N) _)). vm_compute. reflexivity.
  - reflexivity.
Defined.

Lemma bind_inv_ret {S A B} (m : prog S A) (k : A -> prog S B) s b s' :
  bind m k s = (Ret b, s') ->
  exists a s1, m s = (Ret a, s1) /\ k a s1 = (Ret b, s').
Proof.
  unfold bind. destruct (m s) as [[a|e] s1]; [eauto | discriminate].
Qed.

Lemma starts_with_spec p s :
  starts_with p s = true <-> exists post, s = p ++ post.
Proof.
  revert s; induction p as [|a p IH]; intros s; simpl.
  - split; eauto.
  - destruct s as [|b s].
    + split; [discriminate | intros [post H]; discriminate].
    + rewrite andb_true_iff, N.eqb_eq, IH. split.
      * intros [-> [post ->]]. eauto.
      * intros [post [= -> ->]]. eauto.
Qed.

(** [str_contains p s] holds exactly when [p] occurs in [s]. *)
Lemma str_contains_spec p s :
  str_contains p s = true <-> exists pre post, s = pre ++ p ++ post.
Proof.
  induction s as [|c s IH]; simpl.
  - rewrite orb_false_r, starts_with_spec. split.
    + intros [post H]. exists [], post. exact H.
    + intros [pre [post H]]. destruct pre; [eauto|discriminate].
  - rewrite orb_true_iff, starts_with_spec, IH. split.
    + intros [[post H] | [pre [post H]]].
      * exists [], post. exact H.
      * exists (c :: pre), post. simpl. rewrite H. reflexivity.
    + intros [[|c' pre] [post H]].
      * left. eauto.
      * right. injection H as -> ->. eauto.
Qed.

Lemma dget_audio_versions k d :
  dget k (audio_versions d) =
    if str_contains (lit "Audio") k then dget k d else None.
Proof.
  unfold audio_versions.
  induction d as [|[k0 v0] d IH]; cbn [List.filter dget fst].
  - destruct (str_contains _ k); reflexivity.
  - destruct (str_contains (lit "Audio") k0) eqn:E0; cbn [dget].
    + rewrite IH. destruct (str_eqb k k0) eqn:E; [|reflexivity].
      apply str_eqb_eq in E; subst k0. rewrite E0. reflexivity.
    + rewrite IH. destruct (str_eqb k k0) eqn:E; [|reflexivity].
      apply str_eqb_eq in E; subst k0. rewrite E0. reflexivity.
Qed.

Lemma get_remote_player_id_self self w self' id w' :
  get_remote_player_id self w = (Ret (self', id), w') ->
  self' = set_player_id id self.
Proof.
  unfold get_remote_player_id. intros H.
  repeat (apply bind_inv_ret in H as (? & ? & _ & H)).
  injection H as <- <- _. reflexivity.
Qed.

(** C9. After the capability discovery has answered with the dictionary
    [d], the client that construction yields holds in [versions] exactly
    the entries of [d] whose key contains [Audio], each with the
    descriptor it has in [d]; an entry whose key lacks it is dropped. *)
Theorem post_init_keeps_audio_versions self w r rest envelope d self' w' :
  device w = Ret r :: rest ->
  body r = Some (JObj envelope) ->
  dget (lit "data") envelope = Some (JObj d) ->
  __post_init__ self w = (Ret self', w') ->
  versions self' = List.filter (fun kv => str_contains (lit "Audio") (fst kv)) d /\
  (forall k v,
     dget k (versions self') = Some v <->
     dget k d = Some v /\ exists pre post, k = pre ++ lit "Audio" ++ post) /\
  (forall k, (~ exists pre post, k = pre ++ lit "Audio" ++ post) ->
     dget k (versions self') = None).
Proof.
  intros Hdev Hbody Hdata Hinit.
  assert (versions self' = audio_versions d) as Hv.
  { unfold __post_init__ in Hinit.
    apply bind_inv_ret in Hinit as (response & w1 & Hq & Hinit).
    unfold query_syno_api_info in Hq.
    apply bind_inv_ret in Hq as (r0 & w0 & Hq & Hj).
    rewrite (request_answered _ GET _ None w _ [] r rest envelope) in Hq
      by (try reflexivity; try exact I; assumption).
    cbn zeta in Hq.
    assert (r0 = r) as ->.
    { destruct (truthy _); [discriminate | congruence]. }
    unfold response_json in Hj. rewrite Hbody in Hj. injection Hj as <- _.
    unfold getitem at 1 in Hinit. rewrite Hdata in Hinit.
    apply bind_inv_ret in Hinit as (? & ? & [= <- <-] & Hinit).
    apply bind_inv_ret in Hinit as (? & ? & [= <- <-] & Hinit).
    apply bind_inv_ret in Hinit as (? & ? & _ & Hinit).
    apply bind_inv_ret in Hinit as ([s1 id] & ? & Hid & Hinit).
    apply get_remote_player_id_self in Hid. subst s1.
    injection Hinit as <- _. reflexivity. }
  rewrite Hv. split; [reflexivity|]. split.
  - intros k v. rewrite dget_audio_versions, <- str_contains_spec.
    destruct (str_contains (lit "Audio") k); split;
      [tauto | tauto | discriminate | intros [_ ?]; discriminate].
  - intros k Hk. rewrite dget_audio_versions.
    destruct (str_contains (lit "Audio") k) eqn:E; [|reflexivity].
    apply str_contains_spec in E. contradiction.
Qed.

Lemma post_init_keeps_audio_versions_witness :
  let built :=
    set_player_id (JStr (lit "uuid:1"))
      (set_versions (audio_versions sample_capabilities)
         (set_endpoint (lit "nas:5001") (blank_client REMOTE_PLAYER_NAME))) in
  versions built
  = List.filter (fun kv => str_contains (lit "Audio") (fst kv)) sample_capabilities /\
  (forall k v,
     dget k (versions built) = Some v <->
     dget k sample_capabilities = Some v /\
     exists pre post, k = pre ++ lit "Audio" ++ post) /\
  (forall k, (~ exists pre post, k = pre ++ lit "Audio" ++ post) ->
     dget k (versions built) = None).
Proof.
  apply (post_init_keeps_audio_versions (blank_client REMOTE_PLAYER_NAME)
           (world_of [discovery_reply; login_ok_reply;
                      players_reply [player "uuid:0" "Kitchen";
                                     player "uuid:1" "Salon (DLNA)"]] [] [])
           {| status_code := 200;
              body := Some (JObj [(lit "data", JObj sample_capabilities);
                                  (lit "success", JBool true)]) |}
           [login_ok_reply;
            players_reply [player "uuid:0" "Kitchen";
                           player "uuid:1" "Salon (DLNA)"]]
           [(lit "data", JObj sample_capabilities); (lit "success", JBool true)]
           sample_capabilities _
           (snd (__post_init__ (blank_client REMOTE_PLAYER_NAME)
                   (world_of [discovery_reply; login_ok_reply;
                              players_reply [player "uuid:0" "Kitchen";
                                             player "uuid:1" "Salon (DLNA)"]] [] [])))).
  - reflexivity.
  - reflexivity.
  - reflexivity.
  - vm_compute. reflexivity.
Defined.

(** C6, as stated, fails: an error envelope at the login step makes
    construction fail with the [RemotePlayerError] that [request] raises
    for any error envelope, the class that also reports a playing song
    without tags; there is no separate authentication error. *)
Lemma login_error_is_remote_player_error :
  fst (__post_init__ (blank_client REMOTE_PLAYER_NAME)
         (world_of [discovery_reply; login_error_reply] [] []))
  = Raise (RemotePlayerError (JObj [(lit "code", JInt 400)]))
  /\ fst (request ready_client POST (lit "webapi/AudioStation/artist.cgi")
            (Some (lit "api=SYNO.AudioStation.Artist"))
            (world_of [login_error_reply] [] []))
     = Raise (RemotePlayerError (JObj [(lit "code", JInt 400)]))
  /\ fst (get_now_playing sample_repr ready_client
            (world_of [status_reply "playing" []] [] []))
     = Raise (RemotePlayerError (JStr (lit "No info found"))).
Proof. vm_compute. repeat split. Qed.

(** C6, amended. When the capability discovery has succeeded and the
    server answers the login request with an envelope whose [error]
    member is truthy, construction fails with [RemotePlayerError]
    carrying that member: the error [request] raises for every error
    envelope. *)
Theorem post_init_login_error self w r1 env1 d r2 env2 error rest :
  device w = Ret r1 :: Ret r2 :: rest ->
  body r1 = Some (JObj env1) ->
  truthy (default JNull (dget (lit "error") env1)) = false ->
  dget (lit "data") env1 = Some (JObj d) ->
  body r2 = Some (JObj env2) ->
  dget (lit "error") env2 = Some error ->
  truthy error = true ->
  fst (__post_init__ self w) = Raise (RemotePlayerError error).
Proof.
  intros Hdev Hb1 Herr1 Hdata Hb2 Herr2 Htrue.
  unfold __post_init__, query_syno_api_info.
  erewrite bind_ret; cycle 1.
  { erewrite bind_ret; cycle 1.
    { rewrite (request_answered _ GET _ None w _ [] r1 (Ret r2 :: rest) env1)
        by (try reflexivity; try exact I; assumption).
      cbn zeta. rewrite Herr1. reflexivity. }
    unfold response_json. rewrite Hb1. reflexivity. }
  unfold getitem at 1. rewrite Hdata.
  erewrite bind_ret by reflexivity.
  erewrite bind_ret by reflexivity.
  erewrite bind_raise; [reflexivity|].
  unfold login. apply bind_raise.
  rewrite (request_answered _ GET _ None _ _ [] r2 rest env2)
    by (try reflexivity; try exact I; assumption).
  cbn zeta. rewrite Herr2.
  change (default JNull (Some error)) with error. rewrite Htrue. reflexivity.
Qed.

Lemma post_init_login_error_witness :
  fst (__post_init__ (blank_client REMOTE_PLAYER_NAME)
         (world_of [discovery_reply; login_error_reply] [] []))
  = Raise (RemotePlayerError (JObj [(lit "code", JInt 400)])).
Proof.
  apply (post_init_login_error _ _
           {| status_code := 200;
              body := Some (JObj [(lit "data", JObj sample_capabilities);
                                  (lit "success", JBool true)]) |}
           [(lit "data", JObj sample_capabilities); (lit "success", JBool true)]
           sample_capabilities
           {| status_code := 200;
              body := Some (JObj [(lit "error", JObj [(lit "code", JInt 400)]);
                                  (lit "success", JBool false)]) |}
           [(lit "error", JObj [(lit "code", JInt 400)]);
            (lit "success", JBool false)]
           (JObj [(lit "code", JInt 400)]) []).
  - reflexivity.
  - reflexivity.
  - reflexivity.
  - reflexivity.
  - reflexivity.
  - reflexivity.
  - reflexivity.
Defined.

Lemma next_player_skips {S} (before rest : list json) (s : S) :
  Forall has_name before ->
  Forall (fun q => ~ named REMOTE_PLAYER_NAME q) before ->
  next_player (before ++ rest) s = next_player rest s.
Proof.
  induction before as [|q before IH]; intros Hn Hx; [reflexivity|].
  apply Forall_cons in Hn as [(d & name & -> & Hname) Hn].
  apply Forall_cons in Hx as [Hq Hx].
  cbn [app next_player]. unfold getitem at 1. rewrite Hname.
  erewrite bind_ret by reflexivity.
  destruct (py_eq name (JStr REMOTE_PLAYER_NAME)) eqn:E.
  - apply py_eq_str in E; subst name. exfalso. apply Hq. exists d. auto.
  - apply IH; assumption.
Qed.

Lemma next_player_found {S} (before after : list json) d id (s : S) :
  Forall has_name before ->
  Forall (fun q => ~ named REMOTE_PLAYER_NAME q) before ->
  dget (lit "name") d = Some (JStr REMOTE_PLAYER_NAME) ->
  dget (lit "id") d = Some id ->
  next_player (before ++ JObj d :: after) s = (Ret id, s).
Proof.
  intros Hn Hx Hname Hid. rewrite next_player_skips by assumption.
  cbn [next_player]. unfold getitem at 1. rewrite Hname.
  erewrite bind_ret by reflexivity.
  replace (py_eq (JStr REMOTE_PLAYER_NAME) (JStr REMOTE_PLAYER_NAME)) with true
    by (symmetry; apply py_eq_str; reflexivity).
  unfold getitem. rewrite Hid. reflexivity.
Qed.

Lemma next_player_absent {S} (players : list json) (s : S) :
  Forall has_name players ->
  Forall (fun q => ~ named REMOTE_PLAYER_NAME q) players ->
  next_player players s = (Raise StopIteration, s).
Proof.
  intros Hn Hx. rewrite <- (app_nil_r players).
  rewrite next_player_skips by assumption. reflexivity.
Qed.

(** C2, as stated, fails.  A list without the name looked for ends in
    the [StopIteration] of [next]; the program has no error of its own
    for a missing player.  And the name looked for is the module
    constant [REMOTE_PLAYER_NAME], not the [remote_player] the client was
    built with: a client built for "Kitchen" resolves to the player
    called "Salon (DLNA)". *)
Lemma get_remote_player_id_ignores_remote_player :
  let kitchen_client := set_endpoint (lit "nas:5001") (blank_client (lit "Kitchen")) in
  fst (get_remote_player_id ready_client
         (world_of [players_reply [player "uuid:0" "Kitchen";
                                   player "uuid:2" "Bedroom"]] [] []))
  = Raise StopIteration
  /\ fst (get_remote_player_id kitchen_client
            (world_of [players_reply [player "uuid:0" "Kitchen";
                                      player "uuid:1" "Salon (DLNA)"]] [] []))
     = Ret (set_player_id (JStr (lit "uuid:1")) kitchen_client, JStr (lit "uuid:1"))
  /\ fst (get_remote_player_id kitchen_client
            (world_of [players_reply [player "uuid:0" "Kitchen"]] [] []))
     = Raise StopIteration.
Proof. vm_compute. repeat split. Qed.

(** C2, amended. For a client whose [remote_player] is
    [REMOTE_PLAYER_NAME], as [setup] builds it, and a player list whose
    entries carry a name: [get_remote_player_id] stores and returns the
    [id] of the first player whose name is exactly that name, and raises
    [StopIteration] when no player of the list has that name. *)
Theorem get_remote_player_id_resolves self w listing data players w1 :
  remote_player self = REMOTE_PLAYER_NAME ->
  list_remote_players self w = (Ret (JObj listing), w1) ->
  dget (lit "data") listing = Some (JObj data) ->
  dget (lit "players") data = Some (JArr players) ->
  Forall has_name players ->
  (forall before d id after,
     players = before ++ JObj d :: after ->
     Forall (fun q => ~ named (remote_player self) q) before ->
     dget (lit "name") d = Some (JStr (remote_player self)) ->
     dget (lit "id") d = Some id ->
     get_remote_player_id self w = (Ret (set_player_id id self, id), w1)) /\
  (Forall (fun q => ~ named (remote_player self) q) players ->
   get_remote_player_id self w = (Raise StopIteration, w1)).
Proof.
  intros Htarget Hlist Hdata Hplayers Hnames. rewrite Htarget.
  assert (forall out,
            next_player players w1 = (out, w1) ->
            get_remote_player_id self w =
              (match out with
               | Ret id => Ret (set_player_id id self, id)
               | Raise e => Raise e
               end, w1)) as Hrun.
  { intros out Hout. unfold get_remote_player_id.
    erewrite bind_ret by exact Hlist.
    unfold getitem at 1. rewrite Hdata.
    erewrite bind_ret by reflexivity.
    unfold getitem at 1. rewrite Hplayers.
    erewrite bind_ret by reflexivity.
    erewrite bind_ret by reflexivity.
    unfold bind. rewrite Hout. destruct out; reflexivity. }
  split.
  - intros before d id after -> Hbefore Hname Hid.
    apply Forall_app in Hnames as [Hn _].
    apply (Hrun (Ret id)). apply next_player_found; assumption.
  - intros Hnone. apply (Hrun (Raise StopIteration)).
    apply next_player_absent; assumption.
Qed.

Lemma get_remote_player_id_resolves_witness :
  get_remote_player_id ready_client
    (world_of [players_reply [player "uuid:0" "Kitchen";
                              player "uuid:1" "Salon (DLNA)";
                              player "uuid:2" "Salon (DLNA)"]] [] [])
  = (Ret (set_player_id (JStr (lit "uuid:1")) ready_client, JStr (lit "uuid:1")),
     snd (list_remote_players ready_client
            (world_of [players_reply [player "uuid:0" "Kitchen";
                                      player "uuid:1" "Salon (DLNA)";
                                      player "uuid:2" "Salon (DLNA)"]] [] []))).
Proof.
  refine (proj1 (get_remote_player_id_resolves ready_client _
           [(lit "data", JObj [(lit "players",
               JArr [player "uuid:0" "Kitchen"; player "uuid:1" "Salon (DLNA)";
                     player "uuid:2" "Salon (DLNA)"])]);
            (lit "success", JBool true)]
           [(lit "players",
               JArr [player "uuid:0" "Kitchen"; player "uuid:1" "Salon (DLNA)";
                     player "uuid:2" "Salon (DLNA)"])]
           [player "uuid:0" "Kitchen"; player "uuid:1" "Salon (DLNA)";
            player "uuid:2" "Salon (DLNA)"] _ _ _ _ _ _)
          [player "uuid:0" "Kitchen"]
          [(lit "id", JStr (lit "uuid:1")); (lit "name", JStr (lit "Salon (DLNA)"))]
          (JStr (lit "uuid:1"))
          [player "uuid:2" "Salon (DLNA)"] _ _ _ _).
  - reflexivity.
  - vm_compute. reflexivity.
  - reflexivity.
  - reflexivity.
  - repeat constructor; eexists _, _; (split; [reflexivity|]); reflexivity.
  - reflexivity.
  - constructor; [|constructor].
    intros (d & Hd & Hname). injection Hd as <-. vm_compute in Hname. discriminate.
  - reflexivity.
  - reflexivity.
Defined.

Lemma deref_new_set w :
  deref (length (sets w)) (snd (new_set w)) = ∅.
Proof.
  unfold deref, new_set; cbn [snd sets].
  rewrite lookup_app_r by lia. rewrite Nat.sub_diag. reflexivity.
Qed.

Lemma deref_after_new_set l w :
  deref l w ≠ ∅ -> deref l (snd (new_set w)) = deref l w.
Proof.
  unfold deref, new_set; cbn [snd sets]. intros H.
  destruct (sets w !! l) as [s|] eqn:E; [|contradiction].
  rewrite lookup_app_l by (eapply lookup_lt_Some; exact E).
  rewrite E. reflexivity.
Qed.

(** A call that returns a set which is not empty leaves that set in the
    cache under the artist's name. *)
Lemma get_similar_artists_stores self artist limit w l w1 :
  get_similar_artists self artist limit w = (Ret l, w1) ->
  deref l w1 ≠ ∅ ->
  is_Some (last_fm_network self) /\ hashable artist = true /\
  SIMILAR_ARTISTS w1 !! artist = Some l.
Proof.
  unfold get_similar_artists. intros Hrun Hne.
  destruct (last_fm_network self) as [network|].
  - split; [eauto|].
    apply bind_inv_ret in Hrun as (fresh & wa & Hnew & Hrun).
    apply bind_inv_ret in Hrun as (cached & wb & Hget & Hrun).
    apply bind_inv_ret in Hrun as (hit & wc & Hhit & Hrun).
    unfold cache_get in Hget.
    destruct (hashable artist) eqn:Hh; [|discriminate Hget].
    split; [reflexivity|].
    injection Hget as <- <-.
    unfold set_truthy in Hhit. injection Hhit as <- <-.
    assert (wa = snd (new_set w)) as Hwa by (rewrite Hnew; reflexivity).
    assert (fresh = length (sets w)) as Hfresh
      by (unfold new_set in Hnew; congruence).
    destruct (bool_decide (deref _ wa = ∅)) eqn:Hempty; cbn [negb] in Hrun.
    + apply bind_inv_ret in Hrun as (similar & wd & _ & Hrun).
      apply bind_inv_ret in Hrun as (? & we & _ & Hrun).
      apply bind_inv_ret in Hrun as (? & wf & Hset & Hrun).
      unfold cache_set in Hset. rewrite Hh in Hset. injection Hset as _ <-.
      injection Hrun as <- <-. cbn [SIMILAR_ARTISTS].
      apply lookup_kset_eq, key_eq_refl, Hh.
    + injection Hrun as <- <-.
      destruct (SIMILAR_ARTISTS wa !! artist) as [c|] eqn:E; [reflexivity|].
      exfalso. apply Hne. cbn [default]. unfold default, from_option.
      rewrite Hwa, Hfresh. apply deref_new_set.
  - exfalso. apply Hne.
    unfold new_set in Hrun. injection Hrun as <- <-.
    apply (deref_new_set w).
Qed.




(** ** The record of Last.fm calls only grows *)

Lemma stateless_ret {S A} (a : A) : stateless (S:=S) (ret a).
Proof. intros s out s' [= _ <-]. reflexivity. Qed.

Lemma stateless_raise {S A} e : stateless (S:=S) (A:=A) (raise e).
Proof. intros s out s' [= _ <-]. reflexivity. Qed.

Lemma stateless_getitem {S} v k : stateless (S:=S) (getitem v k).
Proof.
  intros s out s'. unfold getitem.
  destruct v; try apply stateless_raise.
  destruct (dget _ _); [apply stateless_ret | apply stateless_raise].
Qed.

Lemma stateless_get {S} v k d : stateless (S:=S) (get v k d).
Proof.
  intros s out s'. unfold get.
  destruct v; try apply stateless_raise.
  destruct (dget _ _); apply stateless_ret.
Qed.

Lemma stateless_iterate {S} v : stateless (S:=S) (iterate v).
Proof.
  intros s out s'. unfold iterate.
  destruct v; first [apply stateless_raise | apply stateless_ret].
Qed.

Lemma stateless_words_of {S} v : stateless (S:=S) (words_of v).
Proof.
  intros s out s'. unfold words_of.
  destruct v; first [apply stateless_raise | apply stateless_ret].
Qed.

Lemma stateless_attr {S A} (o : option A) : stateless (S:=S) (attr o).
Proof.
  intros s out s'. unfold attr.
  destruct o; [apply stateless_ret | apply stateless_raise].
Qed.

Lemma stateless_encode {S} d : stateless (S:=S) (encode d).
Proof.
  intros s out s'. unfold encode.
  destruct (str_encode d); [apply stateless_ret | apply stateless_raise].
Qed.

Lemma stateless_response_json {S} r : stateless (S:=S) (response_json r).
Proof.
  intros s out s'. unfold response_json.
  destruct (body r); [apply stateless_ret | apply stateless_raise].
Qed.

Lemma stateless_time_time : stateless time_time.
Proof. intros s out s' [= _ <-]. reflexivity. Qed.

Lemma stateless_cache_get a d : stateless (cache_get a d).
Proof.
  intros s out s'. unfold cache_get.
  destruct (hashable a); intros [= _ <-]; reflexivity.
Qed.

Lemma stateless_set_truthy l : stateless (set_truthy l).
Proof. intros s out s' [= _ <-]. reflexivity. Qed.

Lemma log_grows_stateless {A} (m : M A) : stateless m -> log_grows m.
Proof.
  intros H w out w' Hrun. apply H in Hrun; subst w'.
  exists []. rewrite app_nil_r. reflexivity.
Qed.

Lemma log_grows_bind {A B} (m : M A) (k : A -> M B) :
  log_grows m -> (forall a, log_grows (k a)) -> log_grows (bind m k).
Proof.
  intros Hm Hk w out w'. unfold bind.
  destruct (m w) as [[a|e] w1] eqn:E; intros Hrun.
  - destruct (Hm _ _ _ E) as [m1 H1].
    destruct (Hk a _ _ _ Hrun) as [m2 H2].
    exists (m1 ++ m2). rewrite H2, H1, app_assoc. reflexivity.
  - injection Hrun as _ <-. eapply Hm; exact E.
Qed.

Lemma log_grows_try {A} (m : M A) (h : exn -> M A) :
  log_grows m -> (forall e, log_grows (h e)) -> log_grows (try_except m h).
Proof.
  intros Hm Hh w out w'. unfold try_except.
  destruct (m w) as [[a|e] w1] eqn:E; intros Hrun.
  - injection Hrun as _ <-. eapply Hm; exact E.
  - destruct (Hm _ _ _ E) as [m1 H1].
    destruct (Hh e _ _ _ Hrun) as [m2 H2].
    exists (m1 ++ m2). rewrite H2, H1, app_assoc. reflexivity.
Qed.

Lemma log_grows_for_each {A} (xs : list A) (body : A -> M unit) :
  (forall x, log_grows (body x)) -> log_grows (for_each xs body).
Proof.
  intros Hb. induction xs as [|x xs IH]; cbn [for_each].
  - apply log_grows_stateless, stateless_ret.
  - apply log_grows_bind; [apply Hb | intros _; exact IH].
Qed.

Lemma log_grows_session_request rq : log_grows (session_request rq).
Proof.
  intros w out w'. unfold session_request.
  destruct (device w); intros [= _ <-]; exists [];
    rewrite app_nil_r; reflexivity.
Qed.

Lemma log_grows_pylast_ack c : log_grows (pylast_ack c).
Proof.
  intros w out w'. unfold pylast_ack.
  destruct (lastfm_acks w); intros [= _ <-]; exists [c]; reflexivity.
Qed.

Lemma log_grows_pylast_similar a l : log_grows (pylast_similar a l).
Proof.
  intros w out w'. unfold pylast_similar.
  destruct (lastfm_similar w); intros [= _ <-];
    exists [GetSimilar a l]; reflexivity.
Qed.

Lemma log_grows_new_set : log_grows new_set.
Proof. intros w out w' [= _ <-]. exists []. rewrite app_nil_r. reflexivity. Qed.

Lemma log_grows_set_add l x : log_grows (set_add l x).
Proof. intros w out w' [= _ <-]. exists []. rewrite app_nil_r. reflexivity. Qed.

Lemma log_grows_cache_set a l : log_grows (cache_set a l).
Proof.
  intros w out w'. unfold cache_set.
  destruct (hashable a); intros [= _ <-]; exists [];
    rewrite app_nil_r; reflexivity.
Qed.

Lemma log_grows_sleep n : log_grows (sleep n).
Proof. intros w out w' [= _ <-]. exists []. rewrite app_nil_r. reflexivity. Qed.

Create HintDb grows.
#[local] Hint Resolve stateless_ret stateless_raise stateless_getitem stateless_get
  stateless_iterate stateless_words_of stateless_attr stateless_encode
  stateless_response_json stateless_time_time stateless_cache_get
  stateless_set_truthy log_grows_stateless log_grows_session_request
  log_grows_pylast_ack log_grows_pylast_similar log_grows_new_set
  log_grows_set_add log_grows_cache_set log_grows_sleep : grows.

Ltac grows :=
  repeat first
    [ progress intros
    | apply log_grows_bind
    | apply log_grows_try
    | apply log_grows_for_each
    | solve [eauto with grows]
    | match goal with
      | |- log_grows (match ?x with _ => _ end) => destruct x
      end ].

Lemma log_grows_request self v path data : log_grows (request self v path data).
Proof. unfold request. grows. Qed.

Lemma log_grows_search_for_artist self artist :
  log_grows (search_for_artist self artist).
Proof. unfold search_for_artist. grows; apply log_grows_request. Qed.

Lemma log_grows_get_similar_artists self artist limit :
  log_grows (get_similar_artists self artist limit).
Proof.
  unfold get_similar_artists, get_similar.
  grows; apply log_grows_search_for_artist.
Qed.

(** ** The polling loop *)

Lemma pylast_ack_pop c w o rest :
  lastfm_acks w = o :: rest -> pylast_ack c w = (o, acked c rest w).
Proof. unfold pylast_ack, acked. intros ->. reflexivity. Qed.

Lemma pylast_ack_log c w out w' :
  pylast_ack c w = (out, w') -> lastfm_calls w' = lastfm_calls w ++ [c].
Proof.
  unfold pylast_ack. destruct (lastfm_acks w); intros [= _ <-]; reflexivity.
Qed.

Lemma new_LastFMNetwork_log network w out w' :
  new_LastFMNetwork network w = (out, w') ->
  lastfm_calls w' = lastfm_calls w ++ [Connect network] /\
  environ w' = environ w /\ sent w' = sent w /\ device w' = device w.
Proof.
  unfold new_LastFMNetwork, pylast_ack.
  destruct (given (api_key network) && given (api_secret network)
            && (given (username network)
                && given (Some (password_hash network)))).
  - destruct (lastfm_acks w); intros [= _ <-]; auto.
  - intros [= _ <-]; auto.
Qed.

Lemma new_LastFMNetwork_session network w :
  given (api_key network) = true ->
  given (api_secret network) = true ->
  given (username network) = true ->
  given (Some (password_hash network)) = true ->
  new_LastFMNetwork network w = pylast_ack (Connect network) w.
Proof.
  intros Hk Hs Hu Hp. unfold new_LastFMNetwork.
  rewrite Hk, Hs, Hu, Hp. reflexivity.
Qed.

Lemma pylast_ack_ret c w u w' :
  pylast_ack c w = (Ret u, w') -> lastfm_acks w = Ret tt :: lastfm_acks w'.
Proof.
  unfold pylast_ack. destruct (lastfm_acks w) as [|o rest]; [discriminate|].
  intros [= -> <-]. destruct u. reflexivity.
Qed.

Lemma getitem_key {S} d k v (s : S) :
  dget (lit k) d = Some v -> getitem (JObj d) k s = (Ret v, s).
Proof. unfold getitem. intros ->. reflexivity. Qed.

Lemma lift_run {L A} (m : M A) (f : L) w :
  lift m (f, w) = (fst (m w), (f, snd (m w))).
Proof. unfold lift; cbn [fst snd]. destruct (m w); reflexivity. Qed.

Section Announce.

Variables (n : LastFMNetwork) (d : list (pystr * json)).
Variables artist title album album_artist track : json.
Hypothesis Hartist : dget (lit "artist") d = Some artist.
Hypothesis Htitle : dget (lit "title") d = Some title.
Hypothesis Halbum : dget (lit "album") d = Some album.
Hypothesis Halbum_artist : dget (lit "album_artist") d = Some album_artist.
Hypothesis Htrack : dget (lit "track") d = Some track.

Ltac keys :=
  repeat first
    [ erewrite bind_ret by (apply getitem_key; eassumption)
    | erewrite bind_ret by (unfold attr; reflexivity)
    | erewrite bind_ret by (unfold time_time; reflexivity) ].

(** Whatever comes of it, reporting a track starts with the call
    [update_now_playing]. *)
Lemma announce_emits w out w' :
  announce (Some n) (JObj d) w = (out, w') ->
  exists more,
    lastfm_calls w' =
    lastfm_calls w ++ UpdateNowPlaying artist title album album_artist track :: more.
Proof.
  unfold announce. keys. unfold bind at 1.
  destruct (pylast_ack _ w) as [[u|e] wa] eqn:Ha.
  - apply pylast_ack_log in Ha. keys. intros Hb.
    apply pylast_ack_log in Hb. eexists. rewrite Hb, Ha, <- app_assoc.
    reflexivity.
  - apply pylast_ack_log in Ha. intros [= _ <-]. exists []. exact Ha.
Qed.

(** A network error raised by either call ends the report with that
    error. *)
Lemma announce_network_error w rest :
  lastfm_acks w = Raise NetworkError :: rest \/
  lastfm_acks w = Ret tt :: Raise NetworkError :: rest ->
  exists w',
    announce (Some n) (JObj d) w = (Raise NetworkError, w') /\
    clock w' = clock w /\ device w' = device w /\ lastfm_acks w' = rest.
Proof.
  intros [Hacks | Hacks]; unfold announce; keys.
  - erewrite bind_raise by (apply pylast_ack_pop; exact Hacks).
    eexists; repeat split; reflexivity.
  - erewrite bind_ret by (apply pylast_ack_pop; exact Hacks).
    keys. erewrite pylast_ack_pop by reflexivity.
    eexists; repeat split; reflexivity.
Qed.

End Announce.

(** A report that ends well has had both calls answered well. *)
Lemma announce_ret tracker info w u w' :
  announce tracker info w = (Ret u, w') ->
  lastfm_acks w = Ret tt :: Ret tt :: lastfm_acks w'.
Proof.
  unfold announce. intros H.
  repeat match type of H with
  | bind (getitem _ _) _ _ = _ =>
      let E := fresh in
      apply bind_inv_ret in H as (? & ? & E & H);
      apply stateless_getitem in E; subst
  | bind (attr _) _ _ = _ =>
      let E := fresh in
      apply bind_inv_ret in H as (? & ? & E & H);
      apply stateless_attr in E; subst
  | bind time_time _ _ = _ =>
      let E := fresh in
      apply bind_inv_ret in H as (? & ? & E & H);
      apply stateless_time_time in E; subst
  | bind (pylast_ack _) _ _ = _ =>
      let E := fresh "Hack" in
      apply bind_inv_ret in H as (? & ? & E & H);
      apply pylast_ack_ret in E
  end.
  apply pylast_ack_ret in H. rewrite Hack, H. reflexivity.
Qed.

(** What [poll] does after [current_track] has been assigned. *)
Lemma poll_tail_run (r : AudioStationRemote) info f w out f' w' :
  (artist <- getitem info "artist" ;;
   lift (L:=frame) (get_similar_artists r artist 30) ;;;
   ret tt) (f, w) = (out, (f', w')) ->
  f' = f /\ exists more, lastfm_calls w' = lastfm_calls w ++ more.
Proof.
  unfold bind at 1.
  destruct (getitem info "artist" (f, w)) as [[a|e] s1] eqn:E;
    apply stateless_getitem in E; subst s1.
  - unfold bind. rewrite lift_run.
    destruct (get_similar_artists r a 30 w) as [[l|e] w2] eqn:E; cbn [fst snd];
      intros [= _ <- <-]; (split; [reflexivity|]);
      eapply log_grows_get_similar_artists; exact E.
  - intros [= _ <- <-]. split; [reflexivity|].
    exists []. rewrite app_nil_r. reflexivity.
Qed.

Lemma poll_run repr f w r :
  remote f = Some r ->
  poll repr (f, w) =
    match get_now_playing repr r w with
    | (Raise e, w1) => (Raise e, (f, w1))
    | (Ret info, w1) =>
        if truthy info && negb (py_eq (current_track f) info) then
          match announce (network f) info w1 with
          | (Raise e, w2) => (Raise e, (f, w2))
          | (Ret _, w2) =>
              (artist <- getitem info "artist" ;;
               lift (L:=frame) (get_similar_artists r artist 30) ;;;
               ret tt) (set_current_track info f, w2)
          end
        else (Ret tt, (f, w1))
    end.
Proof.
  intros Hr. unfold poll.
  erewrite bind_ret
    by (erewrite bind_ret by (unfold local; reflexivity);
        cbn [fst]; rewrite Hr; reflexivity).
  unfold bind at 1. rewrite lift_run.
  destruct (get_now_playing repr r w) as [[info|e] w1]; cbn [fst snd];
    [|reflexivity].
  erewrite bind_ret by (unfold local; reflexivity). cbn [fst].
  destruct (truthy info && negb (py_eq (current_track f) info)); [|reflexivity].
  erewrite bind_ret by (unfold local; reflexivity). cbn [fst].
  unfold bind at 1. rewrite lift_run.
  destruct (announce (network f) info w1) as [[u|e] w2]; cbn [fst snd];
    [|reflexivity].
  erewrite bind_ret by (unfold assign; reflexivity). reflexivity.
Qed.

Lemma main_iteration_run repr md5 f w n :
  network f = Some n ->
  main_iteration repr md5 (f, w) =
    match poll repr (f, w) with
    | (Ret _, (f1, w1)) => (Ret tt, (f1, snd (sleep 5 w1)))
    | (Raise NetworkError, (f1, w1)) =>
        (Ret tt, (f1, snd (sleep 5 (snd (sleep 10 w1)))))
    | (Raise e, s1) => (Raise e, s1)
    end.
Proof.
  intros Hn. unfold main_iteration.
  erewrite bind_ret by (unfold local; reflexivity).
  erewrite bind_ret by (unfold local; reflexivity).
  cbn [fst]. rewrite Hn. cbn [not_none orb negb].
  erewrite bind_ret by reflexivity.
  unfold bind, try_except.
  destruct (poll repr (f, w)) as [[u|e] [f1 w1]].
  - rewrite lift_run. reflexivity.
  - destruct e; reflexivity.
Qed.

(** * Further properties of the program *)

(** ** Relations kept by every step *)

Section Respects.

Variable R : world -> world -> Prop.
Hypothesis R_refl : forall w, R w w.
Hypothesis R_trans : forall a b c, R a b -> R b c -> R a c.

Lemma respects_stateless {A} (m : M A) : stateless m -> respects R m.
Proof. intros H w out w' Hrun. apply H in Hrun; subst w'. apply R_refl. Qed.

Lemma respects_bind {A B} (m : M A) (k : A -> M B) :
  respects R m -> (forall a, respects R (k a)) -> respects R (bind m k).
Proof.
  intros Hm Hk w out w'. unfold bind.
  destruct (m w) as [[a|e] w1] eqn:E; intros Hrun.
  - eapply R_trans; [eapply Hm; exact E | eapply Hk; exact Hrun].
  - injection Hrun as _ <-. eapply Hm; exact E.
Qed.

Lemma respects_try {A} (m : M A) (h : exn -> M A) :
  respects R m -> (forall e, respects R (h e)) -> respects R (try_except m h).
Proof.
  intros Hm Hh w out w'. unfold try_except.
  destruct (m w) as [[a|e] w1] eqn:E; intros Hrun.
  - injection Hrun as _ <-. eapply Hm; exact E.
  - eapply R_trans; [eapply Hm; exact E | eapply Hh; exact Hrun].
Qed.

Lemma respects_for_each {A} (xs : list A) (body : A -> M unit) :
  (forall x, x ∈ xs -> respects R (body x)) -> respects R (for_each xs body).
Proof.
  induction xs as [|x xs IH]; intros Hb; cbn [for_each].
  - apply respects_stateless, stateless_ret.
  - apply respects_bind.
    + apply Hb. apply list_elem_of_here.
    + intros _. apply IH. intros y Hy. apply Hb. apply list_elem_of_further, Hy.
Qed.

End Respects.

Lemma device_only_refl w : device_only w w.
Proof. repeat split. Qed.

Lemma device_only_trans a b c :
  device_only a b -> device_only b c -> device_only a c.
Proof.
  unfold device_only.
  intros (?&?&?&?&?&?&?) (?&?&?&?&?&?&?). repeat split; congruence.
Qed.

Lemma cache_kept_trans a b c : cache_kept a b -> cache_kept b c -> cache_kept a c.
Proof. unfold cache_kept. congruence. Qed.

Lemma device_only_session_request rq : respects device_only (session_request rq).
Proof.
  intros w out w'. unfold session_request.
  destruct (device w); intros [= _ <-]; repeat split.
Qed.

(** Steps through a program, one [bind] after the other, for a relation
    that is reflexive and transitive. *)
Create HintDb respects.

Ltac respects_steps refl trans :=
  repeat first
    [ solve [auto with respects]
    | apply (respects_bind _ trans)
    | apply (respects_try _ trans)
    | apply (respects_stateless _ refl);
      solve [eauto with grows]
    | match goal with
      | |- forall _, _ => intro
      | |- respects _ (match ?x with _ => _ end) => destruct x
      | |- respects _ (if ?x then _ else _) => destruct x
      end ].

#[local] Hint Resolve device_only_session_request : respects.

Lemma device_only_request self v path data :
  respects device_only (request self v path data).
Proof. unfold request. respects_steps device_only_refl device_only_trans. Qed.

#[local] Hint Resolve device_only_request : respects.

(** What a call of [request] has done by the time it ends. *)
Lemma request_outcome self v path data w out w' :
  request self v path data w = (out, w') ->
  (w' = w /\ (out = Raise AttributeError \/ out = Raise UnicodeEncodeError)) \/
  (exists host,
     endpoint self = Some host /\
     sent w' = sent w ++ [request_of self host v path data] /\
     device w' = tail (device w) /\
     device_only w w').
Proof.
  unfold request. destruct (endpoint self) as [host|]; cbn [attr].
  2:{ intros [= <- <-]. left. auto. }
  erewrite bind_ret by reflexivity.
  assert (forall payload,
    (match data with Some d => str_encode d | None => None end) = payload ->
    (request <- session_request
        {| req_verb := v; req_url := lit "https://" ++ host ++ lit "/" ++ path;
           req_data := payload; req_verify := verify self |} ;;
     envelope <- response_json request ;;
     error_message <- get envelope "error" JNull ;;
     if truthy error_message then raise (RemotePlayerError error_message)
     else ret request) w = (out, w') ->
    exists host0,
      Some host = Some host0 /\
      sent w' = sent w ++ [request_of self host0 v path data] /\
      device w' = tail (device w) /\ device_only w w') as Hsent.
  { intros payload Hp. unfold bind at 1.
    destruct (session_request _ w) as [[r|e] w1] eqn:Hs.
    - intros Hrest. exists host. split; [reflexivity|].
      assert (w' = w1) as ->.
      { revert Hrest. unfold response_json, get, bind, raise, ret.
        destruct (body r) as [[| | | | | |env]|];
          try (intros [= _ <-]; reflexivity).
        destruct (dget (lit "error") env) as [err|]; cbn [truthy].
        - destruct (truthy err); intros [= _ <-]; reflexivity.
        - intros [= _ <-]; reflexivity. }
      unfold session_request in Hs. unfold request_of. rewrite Hp.
      destruct (device w); injection Hs as _ <-; repeat split.
    - intros [= _ <-]. exists host. split; [reflexivity|].
      unfold session_request in Hs. unfold request_of. rewrite Hp.
      destruct (device w); injection Hs as _ <-; repeat split. }
  destruct data as [d|].
  - unfold encode. destruct (str_encode d) as [b|] eqn:Hd.
    + erewrite bind_ret by reflexivity. intros Hrun. right.
      exact (Hsent (Some b) eq_refl Hrun).
    + intros [= <- <-]. left. auto.
  - erewrite bind_ret by reflexivity. intros Hrun. right.
    exact (Hsent None eq_refl Hrun).
Qed.

(** X1. A call of [request] either fails before anything is sent (the
    client has no endpoint yet, or the body has no encoding) and leaves
    the world as it was, or hands exactly one request to the session:
    the verb given, the address [https://endpoint/path], the encoded
    body and the client's [verify] flag, using up one answer of the
    device, whatever that answer is. *)
Theorem request_sends_one self v path data w out w' :
  request self v path data w = (out, w') ->
  (w' = w /\ (out = Raise AttributeError \/ out = Raise UnicodeEncodeError)) \/
  (exists host,
     endpoint self = Some host /\
     sent w' = sent w ++ [request_of self host v path data] /\
     device w' = tail (device w) /\
     device_only w w').
Proof.
  intros Hrun.
  destruct (request_outcome _ _ _ _ _ _ _ Hrun)
    as [[Hsame Hout] | (host & Hend & Hsent & Hdev & Honly)].
  - left. split; assumption.
  - right. exists host. repeat split; try assumption; apply Honly.
Qed.

Lemma request_sends_one_witness :
  exists host,
    endpoint ready_client = Some host /\
    sent (snd (request ready_client GET (lit "webapi/entry.cgi") None
                 (world_of [] [] [])))
    = sent (world_of [] [] [])
      ++ [request_of ready_client host GET (lit "webapi/entry.cgi") None] /\
    device (snd (request ready_client GET (lit "webapi/entry.cgi") None
                   (world_of [] [] [])))
    = tail (device (world_of [] [] [])) /\
    device_only (world_of [] [] [])
      (snd (request ready_client GET (lit "webapi/entry.cgi") None
              (world_of [] [] []))).
Proof.
  destruct (request_sends_one ready_client GET (lit "webapi/entry.cgi") None
              (world_of [] [] [])
              (fst (request ready_client GET (lit "webapi/entry.cgi") None
                      (world_of [] [] [])))
              (snd (request ready_client GET (lit "webapi/entry.cgi") None
                      (world_of [] [] []))))
    as [[H _] | H].
  - vm_compute. reflexivity.
  - vm_compute in H. discriminate H.
  - exact H.
Defined.

Lemma stateless_bind {S A B} (m : prog S A) (k : A -> prog S B) :
  stateless m -> (forall a, stateless (k a)) -> stateless (bind m k).
Proof.
  intros Hm Hk s out s'. unfold bind.
  destruct (m s) as [[a|e] s1] eqn:E; intros Hrun.
  - apply Hm in E; subst s1. eapply Hk; exact Hrun.
  - injection Hrun as _ <-. eapply Hm; exact E.
Qed.

Lemma stateless_items {S} v : stateless (S:=S) (items v).
Proof.
  intros s out s'. unfold items.
  destruct v; first [apply stateless_raise | apply stateless_ret].
Qed.

Lemma stateless_unpack_into {S} d v : stateless (S:=S) (unpack_into d v).
Proof.
  intros s out s'. unfold unpack_into.
  destruct v; first [apply stateless_raise | apply stateless_ret].
Qed.

Lemma stateless_next_player {S} players : stateless (S:=S) (next_player players).
Proof.
  induction players as [|x rest IH]; cbn [next_player].
  - apply stateless_raise.
  - apply stateless_bind; [apply stateless_getitem|].
    intros name. destruct (py_eq name _); [apply stateless_getitem | exact IH].
Qed.

#[local] Hint Resolve stateless_items stateless_unpack_into stateless_next_player : grows.

Lemma device_only_list_remote_players self :
  respects device_only (list_remote_players self).
Proof.
  unfold list_remote_players.
  respects_steps device_only_refl device_only_trans.
Qed.

#[local] Hint Resolve device_only_list_remote_players : respects.

Lemma device_only_get_remote_player_id self :
  respects device_only (get_remote_player_id self).
Proof.
  unfold get_remote_player_id.
  respects_steps device_only_refl device_only_trans.
Qed.

#[local] Hint Resolve device_only_get_remote_player_id : respects.

Lemma device_only_post_init self : respects device_only (__post_init__ self).
Proof.
  unfold __post_init__, query_syno_api_info, login.
  respects_steps device_only_refl device_only_trans.
Qed.

Lemma device_only_search_for_artist self artist :
  respects device_only (search_for_artist self artist).
Proof.
  unfold search_for_artist.
  respects_steps device_only_refl device_only_trans.
Qed.

#[local] Hint Resolve device_only_search_for_artist : respects.

(** What is left of [get_now_playing] once the status is there. *)
Lemma get_now_playing_after_status repr self w out w' :
  get_now_playing repr self w = (out, w') ->
  exists status, get_remote_player_status repr self w = (status, w').
Proof.
  unfold get_now_playing, bind at 1.
  destruct (get_remote_player_status repr self w) as [[info|e] w1].
  - intros Hrest. exists (Ret info). f_equal. symmetry.
    revert Hrest. apply stateless_bind; [apply stateless_getitem|].
    intros state. destruct (negb _); [apply stateless_ret|].
    repeat (apply stateless_bind;
            [first [apply stateless_getitem | apply stateless_get]|]; intros ?).
    destruct (negb _); [apply stateless_raise|].
    repeat (apply stateless_bind; [apply stateless_getitem|]; intros ?).
    apply stateless_unpack_into.
  - intros [= _ <-]. eauto.
Qed.

Lemma device_only_get_now_playing repr self :
  respects device_only (get_now_playing repr self).
Proof.
  unfold get_now_playing, get_remote_player_status.
  respects_steps device_only_refl device_only_trans.
Qed.

(** X2. Asking what is playing is one question put to the device and
    nothing else: at most one request is sent, a POST, and neither
    Last.fm, nor the cache, nor the clock is touched. *)
Theorem get_now_playing_asks_once repr self w out w' :
  get_now_playing repr self w = (out, w') ->
  device_only w w' /\
  (sent w' = sent w \/
   exists rq, sent w' = sent w ++ [rq] /\ req_verb rq = POST).
Proof.
  intros Hrun. apply get_now_playing_after_status in Hrun as [status Hs].
  unfold get_remote_player_status in Hs. unfold bind at 1 in Hs.
  destruct (attr (player_id self) w) as [[id|e] w0] eqn:Hid;
    apply stateless_attr in Hid; subst w0.
  2:{ injection Hs as _ <-. split; [apply device_only_refl | auto]. }
  unfold bind at 1 in Hs.
  destruct (request self POST _ _ w) as [[r|e] w1] eqn:Hr.
  - assert (w' = w1) as ->.
    { revert Hs. apply stateless_bind; [apply stateless_response_json|].
      intros ?. apply stateless_get. }
    apply request_outcome in Hr as [[-> _] | (host & _ & Hsent & _ & Hd)].
    + split; [apply device_only_refl | auto].
    + split; [exact Hd|]. right. eexists. split; [exact Hsent | reflexivity].
  - injection Hs as _ <-.
    apply request_outcome in Hr as [[-> _] | (host & _ & Hsent & _ & Hd)].
    + split; [apply device_only_refl | auto].
    + split; [exact Hd|]. right. eexists. split; [exact Hsent | reflexivity].
Qed.

Lemma get_now_playing_asks_once_witness :
  let w := world_of [status_reply "playing" [(lit "song_tag", JObj sample_tag)]] [] [] in
  let w' := snd (get_now_playing sample_repr ready_client w) in
  device_only w w' /\
  (sent w' = sent w \/
   exists rq, sent w' = sent w ++ [rq] /\ req_verb rq = POST).
Proof.
  apply (get_now_playing_asks_once sample_repr ready_client _
           (fst (get_now_playing sample_repr ready_client
                   (world_of [status_reply "playing"
                                [(lit "song_tag", JObj sample_tag)]] [] [])))).
  vm_compute. reflexivity.
Defined.

(** X3. An answer whose body is not a JSON text makes [request] raise
    [JSONDecodeError], and one whose JSON is not an object makes it raise
    [AttributeError], whatever the status code: the body is parsed and
    searched for [error] before anything else is looked at. *)
Theorem request_bad_body self v path data w host r rest :
  endpoint self = Some host ->
  (forall d, data = Some d -> str_encode d <> None) ->
  device w = Ret r :: rest ->
  (forall envelope, body r <> Some (JObj envelope)) ->
  fst (request self v path data w) =
    match body r with
    | None => Raise JSONDecodeError
    | Some _ => Raise AttributeError
    end.
Proof.
  intros Hend Henc Hdev Hbody. unfold request. rewrite Hend. cbn [attr].
  erewrite bind_ret by reflexivity.
  assert (forall payload,
    fst ((request <- session_request
            {| req_verb := v; req_url := lit "https://" ++ host ++ lit "/" ++ path;
               req_data := payload; req_verify := verify self |} ;;
          envelope <- response_json request ;;
          error_message <- get envelope "error" JNull ;;
          if truthy error_message then raise (RemotePlayerError error_message)
          else ret request) w) =
    match body r with
    | None => Raise JSONDecodeError
    | Some _ => Raise AttributeError
    end) as Hrun.
  { intros payload.
    erewrite bind_ret by (unfold session_request; rewrite Hdev; reflexivity).
    unfold response_json, get, bind, raise, ret.
    destruct (body r) as [[| | | | | |envelope]|]; try reflexivity.
    exfalso. exact (Hbody envelope eq_refl). }
  destruct data as [d|].
  - unfold encode. destruct (str_encode d) as [b|] eqn:Hd.
    + erewrite bind_ret by reflexivity. apply Hrun.
    + exfalso. exact (Henc d eq_refl Hd).
  - erewrite bind_ret by reflexivity. apply Hrun.
Qed.

Lemma request_bad_body_witness :
  fst (request ready_client GET (lit "webapi/entry.cgi") None
         (world_of [Ret {| status_code := 502; body := None |}] [] []))
  = Raise JSONDecodeError.
Proof.
  apply (request_bad_body ready_client GET (lit "webapi/entry.cgi") None
           (world_of [Ret {| status_code := 502; body := None |}] [] [])
           (lit "nas:5001") {| status_code := 502; body := None |} []).
  - reflexivity.
  - intros d Hd. discriminate Hd.
  - reflexivity.
  - intros envelope Hb. discriminate Hb.
Defined.

(** The status query, once the device has answered with an envelope. *)
Lemma get_remote_player_status_answered repr self w host id r rest envelope :
  endpoint self = Some host ->
  player_id self = Some id ->
  str_encode (format repr id) <> None ->
  device w = Ret r :: rest ->
  body r = Some (JObj envelope) ->
  exists w',
    get_remote_player_status repr self w =
      (if truthy (default JNull (dget (lit "error") envelope))
       then Raise (RemotePlayerError (default JNull (dget (lit "error") envelope)))
       else Ret (default (JObj []) (dget (lit "data") envelope)), w').
Proof.
  intros Hend Hid Henc Hdev Hbody. unfold get_remote_player_status.
  rewrite Hid. cbn [attr]. erewrite bind_ret by reflexivity.
  destruct (str_encode (format repr id)) as [b|] eqn:Hb; [|contradiction].
  assert (exists payload,
    str_encode
      (lit "api=SYNO.AudioStation.RemotePlayerStatus&version=1&method=getstatus&id="
       ++ format repr id ++ lit "&additional=song_tag") = Some payload)
    as [payload Hp].
  { rewrite !str_encode_app, Hb.
    destruct (str_encode (lit "api=SYNO.AudioStation.RemotePlayerStatus&version=1&method=getstatus&id=")) eqn:E1;
      [|vm_compute in E1; discriminate E1].
    destruct (str_encode (lit "&additional=song_tag")) eqn:E2;
      [|vm_compute in E2; discriminate E2].
    eexists; reflexivity. }
  pose proof (request_answered self POST
                (lit "webapi/AudioStation/remote_player.cgi") (Some _)
                w host payload r rest envelope Hend Hp Hdev Hbody) as Hreq.
  cbv zeta in Hreq. eexists.
  destruct (truthy (default JNull (dget (lit "error") envelope))).
  - erewrite bind_raise by exact Hreq. reflexivity.
  - erewrite bind_ret by exact Hreq.
    unfold response_json. rewrite Hbody.
    erewrite bind_ret by reflexivity.
    unfold get. destruct (dget (lit "data") envelope); reflexivity.
Qed.

(** X4. A status answer without [error] and without [data] stands for
    the empty status, and [get_now_playing] then fails on its first
    subscript with [KeyError('state')]: it returns neither [None] nor a
    track. *)
Theorem get_now_playing_no_data repr self w host id r rest envelope :
  endpoint self = Some host ->
  player_id self = Some id ->
  str_encode (format repr id) <> None ->
  device w = Ret r :: rest ->
  body r = Some (JObj envelope) ->
  truthy (default JNull (dget (lit "error") envelope)) = false ->
  dget (lit "data") envelope = None ->
  fst (get_now_playing repr self w) = Raise (KeyError (lit "state")).
Proof.
  intros Hend Hid Henc Hdev Hbody Herr Hdata.
  destruct (get_remote_player_status_answered repr self w host id r rest envelope
              Hend Hid Henc Hdev Hbody) as [w' Hs].
  rewrite Herr, Hdata in Hs. unfold get_now_playing.
  erewrite bind_ret by exact Hs. reflexivity.
Qed.

Lemma get_now_playing_no_data_witness :
  fst (get_now_playing sample_repr ready_client
         (world_of [reply 200 [(lit "success", JBool true)]] [] []))
  = Raise (KeyError (lit "state")).
Proof.
  apply (get_now_playing_no_data sample_repr ready_client _ (lit "nas:5001")
           (JStr (lit "uuid:1"))
           {| status_code := 200;
              body := Some (JObj [(lit "success", JBool true)]) |}
           [] [(lit "success", JBool true)]).
  - reflexivity.
  - reflexivity.
  - vm_compute. discriminate.
  - reflexivity.
  - reflexivity.
  - reflexivity.
  - reflexivity.
Defined.

(** X5. When the status reports [playing] and [song_tag] is there,
    truthy, but not a dictionary (a string, a number, a list), the merge
    [{"title": ..., **song}] fails with [TypeError]. *)
Theorem get_now_playing_tag_not_mapping
    repr self w info song additional tag title w' :
  get_remote_player_status repr self w = (Ret (JObj info), w') ->
  dget (lit "state") info = Some (JStr (lit "playing")) ->
  dget (lit "song") info = Some (JObj song) ->
  dget (lit "additional") song = Some (JObj additional) ->
  dget (lit "song_tag") additional = Some tag ->
  truthy tag = true ->
  (forall d, tag <> JObj d) ->
  dget (lit "title") song = Some title ->
  get_now_playing repr self w = (Raise TypeError, w').
Proof.
  intros Hstatus Hstate Hsong Hadd Htag Htrue Hshape Htitle.
  unfold get_now_playing.
  erewrite bind_ret by exact Hstatus.
  erewrite bind_ret by (apply getitem_key; exact Hstate).
  replace (py_eq (JStr (lit "playing")) (JStr (lit "playing"))) with true
    by (symmetry; apply py_eq_str; reflexivity).
  change (negb true) with false. cbv iota.
  erewrite bind_ret by (apply getitem_key; exact Hsong).
  erewrite bind_ret by (apply getitem_key; exact Hadd).
  unfold get. rewrite Htag.
  erewrite bind_ret by reflexivity.
  rewrite Htrue. change (negb true) with false. cbv iota.
  erewrite bind_ret by (apply getitem_key; exact Hsong).
  erewrite bind_ret by (apply getitem_key; exact Htitle).
  unfold unpack_into. destruct tag; try reflexivity.
  exfalso. exact (Hshape _ eq_refl).
Qed.

Lemma get_now_playing_tag_not_mapping_witness :
  get_now_playing sample_repr ready_client
    (world_of [status_reply "playing" [(lit "song_tag", JStr (lit "n/a"))]] [] [])
  = (Raise TypeError,
     snd (get_remote_player_status sample_repr ready_client
            (world_of [status_reply "playing"
                         [(lit "song_tag", JStr (lit "n/a"))]] [] []))).
Proof.
  apply (get_now_playing_tag_not_mapping sample_repr ready_client _
           (sample_status "playing" [(lit "song_tag", JStr (lit "n/a"))])
           [(lit "additional", JObj [(lit "song_tag", JStr (lit "n/a"))]);
            (lit "id", JStr (lit "music_1"));
            (lit "path", JStr (lit "/music/so_what.flac"));
            (lit "title", JStr (lit "So What"));
            (lit "type", JStr (lit "file"))]
           [(lit "song_tag", JStr (lit "n/a"))]
           (JStr (lit "n/a")) (JStr (lit "So What"))).
  - vm_compute. reflexivity.
  - reflexivity.
  - reflexivity.
  - reflexivity.
  - reflexivity.
  - reflexivity.
  - intros d Hd. discriminate Hd.
  - reflexivity.
Defined.

(** The artist search, once the device has answered with an envelope. *)
Lemma search_for_artist_answered self artist w host r rest envelope :
  endpoint self = Some host ->
  str_encode artist <> None ->
  device w = Ret r :: rest ->
  body r = Some (JObj envelope) ->
  exists w',
    search_for_artist self artist w =
      (if truthy (default JNull (dget (lit "error") envelope))
       then Raise (RemotePlayerError (default JNull (dget (lit "error") envelope)))
       else Ret (default (JObj []) (dget (lit "data") envelope)), w') /\
    sent w' =
      sent w ++
      [request_of self host POST (lit "webapi/AudioStation/artist.cgi")
         (Some (lit "api=SYNO.AudioStation.Artist&version=4&method=list&filter="
                ++ artist
                ++ lit "&library=all&limit=10&offset=0&additional=avg_rating"))] /\
    device w' = rest.
Proof.
  intros Hend Henc Hdev Hbody. unfold search_for_artist, try_except.
  destruct (str_encode artist) as [b|] eqn:Hb; [|contradiction].
  assert (exists payload,
    str_encode
      (lit "api=SYNO.AudioStation.Artist&version=4&method=list&filter="
       ++ artist
       ++ lit "&library=all&limit=10&offset=0&additional=avg_rating")
    = Some payload) as [payload Hp].
  { rewrite !str_encode_app, Hb.
    destruct (str_encode (lit "api=SYNO.AudioStation.Artist&version=4&method=list&filter=")) eqn:E1;
      [|vm_compute in E1; discriminate E1].
    destruct (str_encode (lit "&library=all&limit=10&offset=0&additional=avg_rating")) eqn:E2;
      [|vm_compute in E2; discriminate E2].
    eexists; reflexivity. }
  pose proof (request_answered self POST (lit "webapi/AudioStation/artist.cgi")
                (Some _) w host payload r rest envelope Hend Hp Hdev Hbody) as Hreq.
  cbv zeta in Hreq. eexists. split; [|split].
  - destruct (truthy (default JNull (dget (lit "error") envelope))).
    + erewrite bind_raise by exact Hreq. reflexivity.
    + erewrite bind_ret by exact Hreq.
      unfold response_json. rewrite Hbody.
      erewrite bind_ret by reflexivity.
      unfold get. destruct (dget (lit "data") envelope); reflexivity.
  - unfold request_of. rewrite Hp. reflexivity.
  - reflexivity.
Qed.



(** X7. For a name that can be encoded, [search_for_artist] sends one
    POST to [webapi/AudioStation/artist.cgi] with the name put into the
    [filter] parameter as it is, and on an answer without error returns
    the envelope's [data] member, or the empty dictionary when the
    envelope has none. *)
Theorem search_for_artist_data self artist w host r rest envelope :
  endpoint self = Some host ->
  str_encode artist <> None ->
  device w = Ret r :: rest ->
  body r = Some (JObj envelope) ->
  truthy (default JNull (dget (lit "error") envelope)) = false ->
  exists w',
    search_for_artist self artist w
    = (Ret (default (JObj []) (dget (lit "data") envelope)), w') /\
    sent w' =
      sent w ++
      [request_of self host POST (lit "webapi/AudioStation/artist.cgi")
         (Some (lit "api=SYNO.AudioStation.Artist&version=4&method=list&filter="
                ++ artist
                ++ lit "&library=all&limit=10&offset=0&additional=avg_rating"))] /\
    device w' = rest.
Proof.
  intros Hend Henc Hdev Hbody Herr.
  destruct (search_for_artist_answered self artist w host r rest envelope
              Hend Henc Hdev Hbody) as (w' & Hrun & Hsent & Hrest).
  rewrite Herr in Hrun. exists w'. auto.
Qed.

Lemma search_for_artist_data_witness :
  exists w',
    search_for_artist ready_client (lit "Miles Davis")
      (world_of [reply 200 [(lit "success", JBool true)]] [] [])
    = (Ret (JObj []), w') /\
    sent w' =
      sent (world_of [reply 200 [(lit "success", JBool true)]] [] []) ++
      [request_of ready_client (lit "nas:5001") POST
         (lit "webapi/AudioStation/artist.cgi")
         (Some (lit "api=SYNO.AudioStation.Artist&version=4&method=list&filter="
                ++ lit "Miles Davis"
                ++ lit "&library=all&limit=10&offset=0&additional=avg_rating"))] /\
    device w' = [].
Proof.
  apply (search_for_artist_data ready_client (lit "Miles Davis") _
           (lit "nas:5001")
           {| status_code := 200;
              body := Some (JObj [(lit "success", JBool true)]) |}
           [] [(lit "success", JBool true)]).
  - reflexivity.
  - vm_compute. discriminate.
  - reflexivity.
  - reflexivity.
  - reflexivity.
Defined.

(** X8. [get_similar] makes one call to Last.fm; it turns a [WSError]
    (the artist is not known) into the empty list and hands on every
    other answer, the names found or any other error, as it is. *)
Theorem get_similar_answers network artist limit w answer rest :
  lastfm_similar w = answer :: rest ->
  exists w',
    get_similar network artist limit w =
      (match answer with
       | Raise WSError => Ret []
       | _ => answer
       end, w') /\
    lastfm_calls w' = lastfm_calls w ++ [GetSimilar artist limit] /\
    lastfm_similar w' = rest /\
    sent w' = sent w.
Proof.
  intros Hq. unfold get_similar, try_except, pylast_similar. rewrite Hq.
  eexists. split.
  { destruct answer as [names|e]; [reflexivity|]. destruct e; reflexivity. }
  repeat split.
Qed.

Lemma get_similar_answers_witness :
  exists w',
    get_similar sample_network (JStr (lit "Nobody")) 30
      (world_of [] [Raise WSError] [])
    = (Ret [], w') /\
    lastfm_calls w' =
      lastfm_calls (world_of [] [Raise WSError] [])
      ++ [GetSimilar (JStr (lit "Nobody")) 30] /\
    lastfm_similar w' = [] /\
    sent w' = sent (world_of [] [Raise WSError] []).
Proof.
  apply (get_similar_answers sample_network (JStr (lit "Nobody")) 30
           (world_of [] [Raise WSError] []) (Raise WSError) []).
  reflexivity.
Defined.

(** ** The cache of similar artists *)

Lemma cache_kept_refl w : cache_kept w w.
Proof. reflexivity. Qed.

Lemma respects_device_only_cache {A} (m : M A) :
  respects device_only m -> respects cache_kept m.
Proof. intros H w out w' Hrun. apply H in Hrun. apply Hrun. Qed.

Lemma cache_kept_new_set : respects cache_kept new_set.
Proof. intros w out w' [= _ <-]. reflexivity. Qed.

Lemma cache_kept_set_add l x : respects cache_kept (set_add l x).
Proof. intros w out w' [= _ <-]. reflexivity. Qed.

Lemma cache_kept_pylast_similar a l : respects cache_kept (pylast_similar a l).
Proof.
  intros w out w'. unfold pylast_similar.
  destruct (lastfm_similar w); intros [= _ <-]; reflexivity.
Qed.

Lemma cache_kept_search_for_artist self artist :
  respects cache_kept (search_for_artist self artist).
Proof. apply respects_device_only_cache, device_only_search_for_artist. Qed.

#[local] Hint Resolve cache_kept_new_set cache_kept_set_add
  cache_kept_pylast_similar cache_kept_search_for_artist : respects.

Lemma cache_kept_get_similar network artist limit :
  respects cache_kept (get_similar network artist limit).
Proof. unfold get_similar. respects_steps cache_kept_refl cache_kept_trans. Qed.

(** The two loops of [get_similar_artists]. *)
Lemma cache_kept_loops self (c : nat) (names : list pystr) :
  respects cache_kept
    (for_each names (fun artist_ =>
       found <- search_for_artist self artist_ ;;
       artists <- get found "artists" (JArr []) ;;
       candidates <- iterate artists ;;
       for_each candidates (fun similar_artist =>
         name <- getitem similar_artist "name" ;;
         theirs <- words_of name ;;
         if bool_decide (words artist_ ∩ theirs ≠ ∅) then
           name <- getitem similar_artist "name" ;;
           match name with
           | JStr s => set_add c s
           | _ => raise TypeError
           end
         else ret tt))).
Proof.
  apply (respects_for_each _ cache_kept_refl cache_kept_trans). intros artist_ _.
  respects_steps cache_kept_refl cache_kept_trans.
  apply (respects_for_each _ cache_kept_refl cache_kept_trans). intros candidate _.
  respects_steps cache_kept_refl cache_kept_trans.
Qed.

Lemma bind_inv_raise {S A B} (m : prog S A) (k : A -> prog S B) s e s' :
  bind m k s = (Raise e, s') ->
  m s = (Raise e, s') \/
  exists a s1, m s = (Ret a, s1) /\ k a s1 = (Raise e, s').
Proof.
  unfold bind. destruct (m s) as [[a|e0] s1]; [eauto|].
  intros [= <- <-]. auto.
Qed.

Lemma other_sets_kept_refl c w : other_sets_kept c w w.
Proof. split; [reflexivity | auto]. Qed.

Lemma other_sets_kept_trans c w1 w2 w3 :
  other_sets_kept c w1 w2 -> other_sets_kept c w2 w3 -> other_sets_kept c w1 w3.
Proof.
  intros [Hl1 H1] [Hl2 H2]. split; [lia|].
  intros l Hc Hl. rewrite H2 by (auto; lia). auto.
Qed.

Lemma respects_device_only_sets {A} c (m : M A) :
  respects device_only m -> respects (other_sets_kept c) m.
Proof.
  intros H w out w' Hrun. apply H in Hrun.
  destruct Hrun as (_ & _ & _ & _ & Hsets & _).
  unfold other_sets_kept. rewrite Hsets. auto.
Qed.

Lemma other_sets_kept_set_add c x : respects (other_sets_kept c) (set_add c x).
Proof.
  intros w out w' [= _ <-]. split; cbn [sets].
  - rewrite length_insert. reflexivity.
  - intros l Hc _. apply list_lookup_insert_ne. auto.
Qed.

Lemma other_sets_kept_cache_set c a l : respects (other_sets_kept c) (cache_set a l).
Proof.
  intros w out w'. unfold cache_set.
  destruct (hashable a); intros [= _ <-]; (split; [reflexivity | auto]).
Qed.

Lemma other_sets_kept_pylast_similar c a l :
  respects (other_sets_kept c) (pylast_similar a l).
Proof.
  intros w out w'. unfold pylast_similar.
  destruct (lastfm_similar w); intros [= _ <-]; (split; [reflexivity | auto]).
Qed.

Lemma other_sets_kept_search_for_artist c self artist :
  respects (other_sets_kept c) (search_for_artist self artist).
Proof. apply respects_device_only_sets, device_only_search_for_artist. Qed.

#[local] Hint Resolve other_sets_kept_set_add other_sets_kept_cache_set
  other_sets_kept_pylast_similar other_sets_kept_search_for_artist : respects.

(** What [get_similar_artists] does once it holds the set [c] to fill. *)
Lemma other_sets_kept_lookup self network artist limit (c : nat) :
  respects (other_sets_kept c)
    (hit <- set_truthy c ;;
     if hit then ret c
     else
       similar_artists <- get_similar network artist limit ;;
       for_each similar_artists (fun artist_ =>
         found <- search_for_artist self artist_ ;;
         artists <- get found "artists" (JArr []) ;;
         candidates <- iterate artists ;;
         for_each candidates (fun similar_artist =>
           name <- getitem similar_artist "name" ;;
           theirs <- words_of name ;;
           if bool_decide (words artist_ ∩ theirs ≠ ∅) then
             name <- getitem similar_artist "name" ;;
             match name with
             | JStr s => set_add c s
             | _ => raise TypeError
             end
           else ret tt)) ;;;
       cache_set artist c ;;;
       ret c).
Proof.
  unfold get_similar.
  respects_steps (other_sets_kept_refl c) (other_sets_kept_trans c).
  apply (respects_for_each _ (other_sets_kept_refl c) (other_sets_kept_trans c)).
  intros artist_ _.
  respects_steps (other_sets_kept_refl c) (other_sets_kept_trans c).
  apply (respects_for_each _ (other_sets_kept_refl c) (other_sets_kept_trans c)).
  intros candidate _.
  respects_steps (other_sets_kept_refl c) (other_sets_kept_trans c).
Qed.

(** A lookup leaves alone every set object but the one it fills. *)
Lemma get_similar_artists_other_sets self artist limit w out w' l :
  get_similar_artists self artist limit w = (out, w') ->
  SIMILAR_ARTISTS w !! artist <> Some l ->
  (l < length (sets w))%nat ->
  sets w' !! l = sets w !! l.
Proof.
  unfold get_similar_artists. intros Hrun Hl Hlen.
  destruct (last_fm_network self) as [network|].
  2:{ injection Hrun as _ <-. cbn [sets]. apply lookup_app_l. exact Hlen. }
  unfold bind at 1 in Hrun. unfold new_set at 1 in Hrun.
  unfold bind at 1 in Hrun. unfold cache_get at 1 in Hrun.
  cbn [SIMILAR_ARTISTS] in Hrun.
  destruct (hashable artist).
  2:{ injection Hrun as _ <-. cbn [sets]. apply lookup_app_l. exact Hlen. }
  apply other_sets_kept_lookup in Hrun as [_ Hkept]. cbn [sets] in Hkept.
  rewrite Hkept.
  - apply lookup_app_l. exact Hlen.
  - destruct (SIMILAR_ARTISTS w !! artist) as [c|].
    + change (default _ (Some c)) with c. congruence.
    + change (default ?d None) with d. lia.
  - rewrite length_app. lia.
Qed.

Lemma sets_grow_refl w : sets_grow w w.
Proof. intros l. reflexivity. Qed.

Lemma sets_grow_trans w1 w2 w3 :
  sets_grow w1 w2 -> sets_grow w2 w3 -> sets_grow w1 w3.
Proof. intros H1 H2 l. etransitivity; [apply H1 | apply H2]. Qed.

Lemma respects_device_only_grow {A} (m : M A) :
  respects device_only m -> respects sets_grow m.
Proof.
  intros H w out w' Hrun. apply H in Hrun.
  destruct Hrun as (_ & _ & _ & _ & Hsets & _).
  intros l. unfold deref. rewrite Hsets. reflexivity.
Qed.

Lemma sets_grow_new_set : respects sets_grow new_set.
Proof.
  intros w out w' [= _ <-] l. unfold deref; cbn [sets].
  destruct (sets w !! l) as [g|] eqn:E.
  - rewrite (lookup_app_l_Some _ _ _ _ E). reflexivity.
  - change (default ∅ None) with (∅ : gset pystr). set_solver.
Qed.

Lemma sets_grow_set_add c x : respects sets_grow (set_add c x).
Proof.
  intros w out w' [= _ <-] l. unfold deref at 2; cbn [sets].
  destruct (decide (l = c)) as [->|Hne].
  - destruct (sets w !! c) as [g|] eqn:E.
    + rewrite list_lookup_insert_eq by (eapply lookup_lt_Some; exact E).
      change (default ∅ (Some ?v)) with v. set_solver.
    + unfold deref. rewrite E.
      change (default ∅ None) with (∅ : gset pystr). set_solver.
  - rewrite list_lookup_insert_ne by auto. reflexivity.
Qed.

Lemma sets_grow_cache_get a l : respects sets_grow (cache_get a l).
Proof.
  intros w out w'. unfold cache_get.
  destruct (hashable a); intros [= _ <-]; apply sets_grow_refl.
Qed.

Lemma sets_grow_cache_set a l : respects sets_grow (cache_set a l).
Proof.
  intros w out w'. unfold cache_set.
  destruct (hashable a); intros [= _ <-]; intros l'; reflexivity.
Qed.

Lemma sets_grow_pylast_similar a l : respects sets_grow (pylast_similar a l).
Proof.
  intros w out w'. unfold pylast_similar.
  destruct (lastfm_similar w); intros [= _ <-]; intros l'; reflexivity.
Qed.

Lemma sets_grow_search_for_artist self artist :
  respects sets_grow (search_for_artist self artist).
Proof. apply respects_device_only_grow, device_only_search_for_artist. Qed.

#[local] Hint Resolve sets_grow_new_set sets_grow_set_add sets_grow_cache_get
  sets_grow_cache_set sets_grow_pylast_similar sets_grow_search_for_artist
  : respects.

(** A lookup takes no member out of any set object. *)
Lemma sets_grow_get_similar_artists self artist limit :
  respects sets_grow (get_similar_artists self artist limit).
Proof.
  unfold get_similar_artists, get_similar.
  respects_steps sets_grow_refl sets_grow_trans.
  apply (respects_for_each _ sets_grow_refl sets_grow_trans). intros artist_ _.
  respects_steps sets_grow_refl sets_grow_trans.
  apply (respects_for_each _ sets_grow_refl sets_grow_trans). intros candidate _.
  respects_steps sets_grow_refl sets_grow_trans.
Qed.

(** X9. A lookup that ends in an exception, from Last.fm or from the
    device, binds no name: the cache maps the same keys to the same set
    objects as before.  No set object has lost a member, and every set
    object that was there has exactly the members it had, except the
    one the cache holds for this very name: the lookup fills that very
    object, which keeps what was put into it before the failure. *)
Theorem get_similar_artists_failure_keeps_cache self artist limit w e w' :
  get_similar_artists self artist limit w = (Raise e, w') ->
  SIMILAR_ARTISTS w' = SIMILAR_ARTISTS w /\
  (forall l, SIMILAR_ARTISTS w !! artist <> Some l ->
             (l < length (sets w))%nat ->
             deref l w' = deref l w) /\
  (forall l, deref l w ⊆ deref l w').
Proof.
  intros Hrun. split; [|split].
  2:{ intros l Hl Hlen. unfold deref.
      rewrite (get_similar_artists_other_sets _ _ _ _ _ _ l Hrun Hl Hlen).
      reflexivity. }
  2:{ exact (sets_grow_get_similar_artists _ _ _ _ _ _ Hrun). }
  - revert Hrun. unfold get_similar_artists.
    destruct (last_fm_network self) as [network|]; [|discriminate].
    intros H.
    apply bind_inv_raise in H as [H | (fresh & wa & Hnew & H)];
      [discriminate H|].
    injection Hnew as _ <-.
    apply bind_inv_raise in H as [H | (c & wb & Hget & H)].
    { unfold cache_get in H. destruct (hashable artist); [discriminate H|].
      injection H as _ <-. reflexivity. }
    apply stateless_cache_get in Hget; subst wb.
    apply bind_inv_raise in H as [H | (hit & wc & Hhit & H)];
      [discriminate H|].
    apply stateless_set_truthy in Hhit; subst wc.
    destruct hit; [discriminate H|].
    apply bind_inv_raise in H as [H | (names & wd & Hs & H)].
    { apply cache_kept_get_similar in H. exact H. }
    apply cache_kept_get_similar in Hs. unfold cache_kept in Hs; cbn in Hs.
    apply bind_inv_raise in H as [H | (u & we & Hloop & H)].
    { apply cache_kept_loops in H. unfold cache_kept in H. congruence. }
    apply bind_inv_raise in H as [H | (u' & wf & _ & H)]; [|discriminate H].
    unfold cache_set in H. destruct (hashable artist); [discriminate H|].
    injection H as _ <-.
    apply cache_kept_loops in Hloop. unfold cache_kept in Hloop. congruence.
Qed.

Lemma get_similar_artists_failure_keeps_cache_witness :
  let w' := snd (get_similar_artists ready_client (JStr (lit "Miles Davis")) 30
                   half_done_world) in
  SIMILAR_ARTISTS w' = SIMILAR_ARTISTS half_done_world /\
  (forall l, SIMILAR_ARTISTS half_done_world !! JStr (lit "Miles Davis") <> Some l ->
             (l < length (sets half_done_world))%nat ->
             deref l w' = deref l half_done_world) /\
  (forall l, deref l half_done_world ⊆ deref l w').
Proof.
  apply (get_similar_artists_failure_keeps_cache ready_client
           (JStr (lit "Miles Davis")) 30 half_done_world
           (RemotePlayerError error_119)).
  vm_compute. reflexivity.
Defined.

(** The exception of X9 at work: the lookup for a name cached with an
    empty set fails at the second search, and the cached set keeps the
    two names the first search had put into it. *)
Lemma failed_lookup_fills_cached_set :
  let w' := snd (get_similar_artists ready_client (JStr (lit "Miles Davis")) 30
                   half_done_world) in
  fst (get_similar_artists ready_client (JStr (lit "Miles Davis")) 30
         half_done_world) = Raise (RemotePlayerError error_119) /\
  deref 0 half_done_world = ∅ /\
  deref 0 w' = {[lit "John Coltrane"; lit "Alice Coltrane"]} /\
  deref 1 w' = deref 1 half_done_world.
Proof.
  repeat split; vm_compute; reflexivity.
Qed.

Lemma members_kept_refl c Q w : members_kept c Q w w.
Proof. intros H. exact H. Qed.

Lemma members_kept_trans c Q w1 w2 w3 :
  members_kept c Q w1 w2 -> members_kept c Q w2 w3 -> members_kept c Q w1 w3.
Proof. unfold members_kept. auto. Qed.

Lemma respects_device_only_members {A} c Q (m : M A) :
  respects device_only m -> respects (members_kept c Q) m.
Proof.
  intros H w out w' Hrun. apply H in Hrun.
  destruct Hrun as (_ & _ & _ & _ & Hsets & _).
  unfold members_kept, deref. rewrite Hsets. auto.
Qed.

Lemma elem_of_deref_set_add c s x w :
  x ∈ deref c (snd (set_add c s w)) -> x = s \/ x ∈ deref c w.
Proof.
  unfold set_add, deref; cbn [snd sets].
  destruct (decide (c < length (sets w))%nat) as [Hc|Hc].
  - rewrite list_lookup_insert_eq by assumption.
    change (default ∅ (Some ?a)) with a.
    rewrite elem_of_union, elem_of_singleton. tauto.
  - rewrite list_insert_ge by lia. auto.
Qed.

Lemma members_kept_set_add c Q s :
  Q s -> respects (members_kept c Q) (set_add c s).
Proof.
  intros Hs w out w' Hrun.
  assert (w' = snd (set_add c s w)) as -> by (rewrite Hrun; reflexivity).
  intros Hall x Hx. apply elem_of_deref_set_add in Hx as [-> | Hx]; auto.
Qed.

(** One candidate of the inner loop: it joins the set only if it shares
    a word with the artist of the outer loop. *)
Lemma members_kept_candidate c (Q : pystr -> Prop) artist_ candidate :
  (forall s, share_a_word artist_ s -> Q s) ->
  respects (members_kept c Q)
    (name <- getitem candidate "name" ;;
     theirs <- words_of name ;;
     if bool_decide (words artist_ ∩ theirs ≠ ∅) then
       name <- getitem candidate "name" ;;
       match name with
       | JStr s => set_add c s
       | _ => raise TypeError
       end
     else ret tt).
Proof.
  intros HQ. unfold getitem.
  intros w out w'.
  destruct candidate as [ |b|n|f|s|l|d];
    try (erewrite bind_raise by reflexivity;
         intros [= _ <-]; apply members_kept_refl).
  destruct (dget (lit "name") d) as [name|].
  2:{ erewrite bind_raise by reflexivity.
      intros [= _ <-]. apply members_kept_refl. }
  erewrite bind_ret by reflexivity.
  destruct name as [| | | |s| |];
    try (intros [= _ <-]; apply members_kept_refl).
  cbn [words_of]. erewrite bind_ret by reflexivity.
  destruct (bool_decide (words artist_ ∩ words s ≠ ∅)) eqn:Hw.
  - erewrite bind_ret by reflexivity.
    apply members_kept_set_add. apply HQ.
    apply bool_decide_eq_true in Hw. exact Hw.
  - intros [= _ <-]. apply members_kept_refl.
Qed.

Lemma deref_cached_after_new_set artist w :
  (forall c, SIMILAR_ARTISTS w !! artist = Some c -> deref c w = ∅) ->
  deref (default (length (sets w)) (SIMILAR_ARTISTS w !! artist))
    (snd (new_set w)) = ∅.
Proof.
  intros Hmiss. destruct (SIMILAR_ARTISTS w !! artist) as [c|].
  - specialize (Hmiss c eq_refl). change (default _ (Some c)) with c.
    unfold deref, new_set in *; cbn [snd sets].
    destruct (decide (c < length (sets w))%nat) as [Hc|Hc].
    + rewrite lookup_app_l by assumption. exact Hmiss.
    + rewrite lookup_app_r by lia.
      destruct (c - length (sets w))%nat as [|k]; [reflexivity|].
      destruct k; reflexivity.
  - apply deref_new_set.
Qed.

(** X10. When the name is not in the cache, or is there with an empty
    set, every member of the set a lookup returns shares a word (after
    commas are read as spaces) with one of the names Last.fm gave as
    similar. *)
Theorem get_similar_artists_members self artist limit w network names rest l w' :
  last_fm_network self = Some network ->
  (forall c, SIMILAR_ARTISTS w !! artist = Some c -> deref c w = ∅) ->
  lastfm_similar w = Ret names :: rest ->
  get_similar_artists self artist limit w = (Ret l, w') ->
  forall x, x ∈ deref l w' ->
  exists a, a ∈ names /\ share_a_word a x.
Proof.
  intros Hn Hmiss Hq. unfold get_similar_artists. rewrite Hn.
  pose proof (deref_cached_after_new_set artist w Hmiss) as Hempty.
  set (c := default (length (sets w)) (SIMILAR_ARTISTS w !! artist)) in *.
  erewrite bind_ret by reflexivity.
  destruct (hashable artist) eqn:Hh.
  2:{ erewrite bind_raise by (unfold cache_get; rewrite Hh; reflexivity).
      discriminate. }
  erewrite bind_ret by (unfold cache_get; rewrite Hh; reflexivity).
  erewrite bind_ret by reflexivity.
  cbn [new_set snd fst SIMILAR_ARTISTS] in *. fold c.
  unfold new_set in Hempty; cbn [snd] in Hempty. rewrite Hempty.
  rewrite bool_decide_eq_true_2 by reflexivity. change (negb true) with false.
  cbv iota.
  erewrite bind_ret
    by (unfold get_similar, try_except, pylast_similar;
        cbn [lastfm_similar]; rewrite Hq; reflexivity).
  intros Hrun.
  apply bind_inv_ret in Hrun as (u & w2 & Hloop & Hrun).
  apply bind_inv_ret in Hrun as (u' & w3 & Hset & Hrun).
  injection Hrun as <- <-. unfold cache_set in Hset. rewrite Hh in Hset.
  injection Hset as _ <-.
  assert (respects (members_kept c (fun x => exists a, a ∈ names /\ share_a_word a x))
            (for_each names (fun artist_ =>
               found <- search_for_artist self artist_ ;;
               artists <- get found "artists" (JArr []) ;;
               candidates <- iterate artists ;;
               for_each candidates (fun similar_artist =>
                 name <- getitem similar_artist "name" ;;
                 theirs <- words_of name ;;
                 if bool_decide (words artist_ ∩ theirs ≠ ∅) then
                   name <- getitem similar_artist "name" ;;
                   match name with
                   | JStr s => set_add c s
                   | _ => raise TypeError
                   end
                 else ret tt)))) as Hinv.
  { apply (respects_for_each _ (members_kept_refl c _) (members_kept_trans c _)).
    intros artist_ Hin.
    apply (respects_bind _ (members_kept_trans c _));
      [apply respects_device_only_members, device_only_search_for_artist|].
    intros found.
    apply (respects_bind _ (members_kept_trans c _));
      [apply (respects_stateless _ (members_kept_refl c _)), stateless_get|].
    intros artists.
    apply (respects_bind _ (members_kept_trans c _));
      [apply (respects_stateless _ (members_kept_refl c _)), stateless_iterate|].
    intros candidates.
    apply (respects_for_each _ (members_kept_refl c _) (members_kept_trans c _)).
    intros candidate _. apply members_kept_candidate.
    intros s Hs. exists artist_. split; assumption. }
  apply Hinv in Hloop. intros x Hx.
  apply (Hloop (fun y Hy => ltac:(unfold deref in Hy; cbn [sets] in Hy;
                                  unfold deref in Hempty; cbn [sets] in Hempty;
                                  rewrite Hempty in Hy;
                                  exfalso; exact (not_elem_of_empty y Hy))) x).
  exact Hx.
Qed.

Lemma get_similar_artists_members_witness :
  exists a, a ∈ [lit "John Coltrane"] /\ share_a_word a (lit "Alice Coltrane").
Proof.
  apply (get_similar_artists_members ready_client (JStr (lit "Miles Davis")) 30
           coltrane_world sample_network [lit "John Coltrane"] [] 0%nat
           (snd (get_similar_artists ready_client (JStr (lit "Miles Davis")) 30
                   coltrane_world))).
  - reflexivity.
  - intros c Hc. vm_compute in Hc. discriminate Hc.
  - reflexivity.
  - vm_compute. reflexivity.
  - apply (bool_decide_unpack _). vm_compute. exact I.
Defined.

(** X11. When Last.fm does not know the artist ([WSError]) and the
    artist, a value that can be the key of a dictionary as every name
    is, is not in the cache, the lookup returns a new, empty set, binds
    the artist to it in the cache, and sends nothing to the device. *)
Theorem get_similar_artists_unknown_artist self artist limit w network rest :
  last_fm_network self = Some network ->
  hashable artist = true ->
  SIMILAR_ARTISTS w !! artist = None ->
  lastfm_similar w = Raise WSError :: rest ->
  exists l w',
    get_similar_artists self artist limit w = (Ret l, w') /\
    sets w !! l = None /\
    deref l w' = ∅ /\
    SIMILAR_ARTISTS w' = <[artist := l]> (SIMILAR_ARTISTS w) /\
    lastfm_calls w' = lastfm_calls w ++ [GetSimilar artist limit] /\
    sent w' = sent w /\
    device w' = device w.
Proof.
  intros Hn Hh Hmiss Hq. unfold get_similar_artists. rewrite Hn.
  exists (length (sets w)). eexists. split.
  - erewrite bind_ret by reflexivity.
    erewrite bind_ret
      by (unfold cache_get; rewrite Hh; cbn [new_set snd SIMILAR_ARTISTS];
          rewrite Hmiss; reflexivity).
    change (default ?d None) with d.
    erewrite bind_ret by reflexivity.
    cbn [new_set snd fst].
    pose proof (deref_new_set w) as He. unfold new_set in He; cbn [snd] in He.
    rewrite He. rewrite bool_decide_eq_true_2 by reflexivity.
    change (negb true) with false. cbv iota.
    erewrite bind_ret
      by (unfold get_similar, try_except, pylast_similar;
          cbn [lastfm_similar]; rewrite Hq; reflexivity).
    cbn [for_each]. erewrite bind_ret by reflexivity.
    erewrite bind_ret by (unfold cache_set; rewrite Hh; reflexivity).
    reflexivity.
  - cbn [sets SIMILAR_ARTISTS lastfm_calls sent device]. repeat split.
    + apply lookup_ge_None_2. lia.
    + unfold deref; cbn [sets]. rewrite lookup_app_r by lia.
      rewrite Nat.sub_diag. reflexivity.
Qed.

Lemma get_similar_artists_unknown_artist_witness :
  exists l w',
    get_similar_artists ready_client (JStr (lit "Nobody")) 30
      (world_of [] [Raise WSError] []) = (Ret l, w') /\
    sets (world_of [] [Raise WSError] []) !! l = None /\
    deref l w' = ∅ /\
    SIMILAR_ARTISTS w'
    = <[JStr (lit "Nobody") := l]>
        (SIMILAR_ARTISTS (world_of [] [Raise WSError] [])) /\
    lastfm_calls w'
    = lastfm_calls (world_of [] [Raise WSError] [])
      ++ [GetSimilar (JStr (lit "Nobody")) 30] /\
    sent w' = sent (world_of [] [Raise WSError] []) /\
    device w' = device (world_of [] [Raise WSError] []).
Proof.
  apply (get_similar_artists_unknown_artist ready_client (JStr (lit "Nobody")) 30
           (world_of [] [Raise WSError] []) sample_network []).
  - reflexivity.
  - reflexivity.
  - reflexivity.
  - reflexivity.
Defined.

(** X12. A client without a Last.fm network answers every lookup with a
    new, empty set: nothing is asked of Last.fm or of the device, and
    the cache is neither read nor written. *)
Theorem get_similar_artists_without_network self artist limit w :
  last_fm_network self = None ->
  exists l w',
    get_similar_artists self artist limit w = (Ret l, w') /\
    sets w !! l = None /\
    deref l w' = ∅ /\
    SIMILAR_ARTISTS w' = SIMILAR_ARTISTS w /\
    lastfm_calls w' = lastfm_calls w /\
    lastfm_similar w' = lastfm_similar w /\
    sent w' = sent w /\
    device w' = device w.
Proof.
  intros Hn. unfold get_similar_artists. rewrite Hn.
  exists (length (sets w)), (snd (new_set w)). split; [reflexivity|].
  split; [apply lookup_ge_None_2; lia|].
  split; [apply deref_new_set|]. repeat split.
Qed.

Lemma get_similar_artists_without_network_witness :
  exists l w',
    get_similar_artists offline_client (JStr (lit "Miles Davis")) 30 coltrane_world
    = (Ret l, w') /\
    sets coltrane_world !! l = None /\
    deref l w' = ∅ /\
    SIMILAR_ARTISTS w' = SIMILAR_ARTISTS coltrane_world /\
    lastfm_calls w' = lastfm_calls coltrane_world /\
    lastfm_similar w' = lastfm_similar coltrane_world /\
    sent w' = sent coltrane_world /\
    device w' = device coltrane_world.
Proof.
  apply (get_similar_artists_without_network offline_client (JStr (lit "Miles Davis"))
           30 coltrane_world).
  reflexivity.
Defined.

(** ** Construction *)

Lemma request_ret_sent self v path data w r w' :
  request self v path data w = (Ret r, w') ->
  exists host,
    endpoint self = Some host /\
    sent w' = sent w ++ [request_of self host v path data].
Proof.
  intros H. apply request_outcome in H as [[_ [H|H]] | (host & ? & ? & _)];
    [discriminate H | discriminate H | eauto].
Qed.

Lemma get_remote_player_id_sent self w self' id w' :
  get_remote_player_id self w = (Ret (self', id), w') ->
  exists host,
    endpoint self = Some host /\
    sent w' = sent w ++
      [request_of self host POST (lit "webapi/AudioStation/remote_player.cgi")
         (Some (lit "api=SYNO.AudioStation.RemotePlayer&version=3&method=list"))].
Proof.
  unfold get_remote_player_id, list_remote_players. intros H.
  apply bind_inv_ret in H as (listing & w1 & Hl & H).
  apply bind_inv_ret in Hl as (r & w0 & Hr & Hj).
  apply stateless_response_json in Hj; subst w1.
  assert (w' = w0) as ->.
  { revert H. repeat (apply stateless_bind; [auto with grows|]; intros ?).
    apply stateless_ret. }
  eapply request_ret_sent; exact Hr.
Qed.

(** What a construction that succeeds leaves behind. *)
Lemma post_init_built self w self' w' :
  __post_init__ self w = (Ret self', w') ->
  endpoint self' = Some (hostname self ++ lit ":" ++ port self) /\
  (exists id, player_id self' = Some id) /\
  sent w' = sent w ++ construction_requests self /\
  hostname self' = hostname self /\ port self' = port self /\
  account self' = account self /\ password self' = password self /\
  remote_player self' = remote_player self /\ verify self' = verify self /\
  last_fm_network self' = last_fm_network self.
Proof.
  unfold __post_init__, query_syno_api_info, login. intros H.
  apply bind_inv_ret in H as (response & w1 & Hq & H).
  apply bind_inv_ret in Hq as (r1 & w1' & Hr1 & Hj1).
  apply stateless_response_json in Hj1; subst w1'.
  apply bind_inv_ret in H as (data & w2 & Hd & H).
  apply stateless_getitem in Hd; subst w2.
  apply bind_inv_ret in H as (entries & w2 & He & H).
  apply stateless_items in He; subst w2.
  apply bind_inv_ret in H as (logged & w2 & Hlogin & H).
  apply bind_inv_ret in Hlogin as (r2 & w2' & Hr2 & Hj2).
  apply stateless_response_json in Hj2; subst w2'.
  apply bind_inv_ret in H as ([built id] & w3 & Hid & H).
  injection H as <- <-.
  pose proof (get_remote_player_id_self _ _ _ _ _ Hid) as ->.
  apply request_ret_sent in Hr1 as (h1 & [= <-] & Hs1).
  apply request_ret_sent in Hr2 as (h2 & [= <-] & Hs2).
  apply get_remote_player_id_sent in Hid as (h3 & [= <-] & Hs3).
  split; [reflexivity|]. split; [exists id; reflexivity|].
  split; [|repeat split].
  rewrite Hs3, Hs2, Hs1, <- !app_assoc. reflexivity.
Qed.

(** X13. A construction that succeeds has sent exactly three requests,
    in this order: the capability query and the login as GET, the player
    list as POST, all to [https://hostname:port/].  The client it yields
    has that endpoint and a player id, and the fields given to the
    constructor are as they were given. *)
Theorem post_init_ready self w self' w' :
  __post_init__ self w = (Ret self', w') ->
  endpoint self' = Some (hostname self ++ lit ":" ++ port self) /\
  (exists id, player_id self' = Some id) /\
  sent w' = sent w ++ construction_requests self /\
  hostname self' = hostname self /\ port self' = port self /\
  account self' = account self /\ password self' = password self /\
  remote_player self' = remote_player self /\ verify self' = verify self /\
  last_fm_network self' = last_fm_network self.
Proof.
  intros Hinit.
  destruct (post_init_built _ _ _ _ Hinit) as (Hend & Hid & Hsent & Hfields).
  split; [exact Hend|]. split; [exact Hid|]. split; [exact Hsent|].
  exact Hfields.
Qed.

Lemma post_init_ready_witness :
  let built :=
    set_player_id (JStr (lit "uuid:1"))
      (set_versions (audio_versions sample_capabilities)
         (set_endpoint (lit "nas:5001") (blank_client REMOTE_PLAYER_NAME))) in
  let w' := snd (__post_init__ (blank_client REMOTE_PLAYER_NAME) welcoming_world) in
  endpoint built
  = Some (hostname (blank_client REMOTE_PLAYER_NAME) ++ lit ":"
          ++ port (blank_client REMOTE_PLAYER_NAME)) /\
  (exists id, player_id built = Some id) /\
  sent w' = sent welcoming_world
            ++ construction_requests (blank_client REMOTE_PLAYER_NAME) /\
  hostname built = hostname (blank_client REMOTE_PLAYER_NAME) /\
  port built = port (blank_client REMOTE_PLAYER_NAME) /\
  account built = account (blank_client REMOTE_PLAYER_NAME) /\
  password built = password (blank_client REMOTE_PLAYER_NAME) /\
  remote_player built = remote_player (blank_client REMOTE_PLAYER_NAME) /\
  verify built = verify (blank_client REMOTE_PLAYER_NAME) /\
  last_fm_network built = last_fm_network (blank_client REMOTE_PLAYER_NAME).
Proof.
  apply (post_init_ready (blank_client REMOTE_PLAYER_NAME) welcoming_world).
  vm_compute. reflexivity.
Defined.

Lemma stateless_getenv name : stateless (getenv name).
Proof. intros s out s' [= _ <-]. reflexivity. Qed.

Lemma getenv_value name w v w' :
  getenv name w = (Ret v, w') -> v = dget (lit name) (environ w) /\ w' = w.
Proof. intros [= <- <-]. auto. Qed.

(** X14. The client [setup] returns was built for the player
    [REMOTE_PLAYER_NAME] on port 5001 of the host named by
    [DSM_HOSTNAME], without certificate verification, and holds the
    Last.fm network that [setup] returns with it; that network was
    connected, in one call, before the device was contacted. *)
Theorem setup_client md5 w network client w' :
  setup md5 w = (Ret (network, client), w') ->
  remote_player client = REMOTE_PLAYER_NAME /\
  port client = lit "5001" /\
  hostname client = format_env (dget (lit "DSM_HOSTNAME") (environ w)) /\
  verify client = false /\
  last_fm_network client = Some network /\
  (exists id, player_id client = Some id) /\
  lastfm_calls w' = lastfm_calls w ++ [Connect network] /\
  length (sent w') = (length (sent w) + 3)%nat.
Proof.
  unfold setup, new_AudioStationRemote. intros H.
  apply bind_inv_ret in H as (key & w1 & E & H);
    apply stateless_getenv in E; subst w1.
  apply bind_inv_ret in H as (secret & w1 & E & H);
    apply stateless_getenv in E; subst w1.
  apply bind_inv_ret in H as (user & w1 & E & H);
    apply stateless_getenv in E; subst w1.
  apply bind_inv_ret in H as (pass & w1 & E & H);
    apply stateless_getenv in E; subst w1.
  apply bind_inv_ret in H as (hash & w1 & E & H).
  injection E as _ <-.
  apply bind_inv_ret in H as (u & w1 & Hack & H).
  pose proof (new_LastFMNetwork_log _ _ _ _ Hack) as (Hlog & Henv & Hsent & _).
  apply bind_inv_ret in H as (host & w2 & E & H);
    apply getenv_value in E as [-> ->].
  apply bind_inv_ret in H as (account & w2 & E & H);
    apply stateless_getenv in E; subst w2.
  apply bind_inv_ret in H as (password & w2 & E & H);
    apply stateless_getenv in E; subst w2.
  apply bind_inv_ret in H as (built & w2 & Hinit & H).
  injection H as <- <- <-.
  pose proof (device_only_post_init _ _ _ _ Hinit) as (_ & _ & Hcalls & _).
  apply post_init_built in Hinit
    as (_ & Hid & Hs & Hhost & Hport & _ & _ & Hplayer & Hverify & Hnet).
  cbn [hostname port remote_player verify last_fm_network] in *.
  rewrite Hplayer, Hport, Hhost, Hverify, Hnet, Henv, Hcalls, Hlog, Hs, Hsent.
  repeat split; try assumption.
  rewrite length_app. reflexivity.
Qed.

Lemma setup_client_witness :
  let network := {| api_key := None; api_secret := None; username := None;
                    password_hash := lit "0f" |} in
  let client :=
    set_player_id (JStr (lit "uuid:1"))
      (set_versions (audio_versions sample_capabilities)
         (set_endpoint (lit "nas:5001")
            {| hostname := lit "nas"; port := lit "5001"; account := lit "None";
               password := lit "None"; remote_player := REMOTE_PLAYER_NAME;
               verify := false; last_fm_network := Some network;
               version := 1; endpoint := None; player_id := None;
               versions := [] |})) in
  let w' := snd (setup sample_md5 welcoming_world) in
  remote_player client = REMOTE_PLAYER_NAME /\
  port client = lit "5001" /\
  hostname client
  = format_env (dget (lit "DSM_HOSTNAME") (environ welcoming_world)) /\
  verify client = false /\
  last_fm_network client = Some network /\
  (exists id, player_id client = Some id) /\
  lastfm_calls w' = lastfm_calls welcoming_world ++ [Connect network] /\
  length (sent w') = (length (sent welcoming_world) + 3)%nat.
Proof.
  apply (setup_client sample_md5 welcoming_world).
  vm_compute. reflexivity.
Defined.

(** X15. When the four Last.fm credentials ([API_KEY], [API_SECRET],
    [SCROBBLE_USERNAME] and the hash of [SCROBBLE_PASSWORD]) are all
    set and not empty, building the network asks Last.fm for a session;
    when that request fails, [setup] fails with that error before any
    request has gone to the device. *)
Theorem setup_lastfm_first md5 w hash e rest :
  given (dget (lit "API_KEY") (environ w)) = true ->
  given (dget (lit "API_SECRET") (environ w)) = true ->
  given (dget (lit "SCROBBLE_USERNAME") (environ w)) = true ->
  md5 (dget (lit "SCROBBLE_PASSWORD") (environ w)) = Ret hash ->
  given (Some hash) = true ->
  lastfm_acks w = Raise e :: rest ->
  exists w',
    setup md5 w = (Raise e, w') /\
    sent w' = sent w /\
    device w' = device w /\
    lastfm_acks w' = rest.
Proof.
  intros Hkey Hsecret Huser Hmd5 Hhash Hacks. unfold setup.
  erewrite bind_ret by (unfold getenv; reflexivity).
  erewrite bind_ret by (unfold getenv; reflexivity).
  erewrite bind_ret by (unfold getenv; reflexivity).
  erewrite bind_ret by (unfold getenv; reflexivity).
  erewrite bind_ret by (rewrite Hmd5; reflexivity).
  erewrite bind_raise
    by (rewrite new_LastFMNetwork_session by assumption;
        apply pylast_ack_pop; exact Hacks).
  eexists. repeat split.
Qed.

Lemma setup_lastfm_first_witness :
  exists w',
    setup sample_md5 unreachable_lastfm_world = (Raise NetworkError, w') /\
    sent w' = sent unreachable_lastfm_world /\
    device w' = device unreachable_lastfm_world /\
    lastfm_acks w' = [].
Proof.
  apply (setup_lastfm_first sample_md5 unreachable_lastfm_world (lit "0f")
           NetworkError []).
  - reflexivity.
  - reflexivity.
  - reflexivity.
  - reflexivity.
  - reflexivity.
  - reflexivity.
Defined.

(** ** More on the polling loop *)

(** A turn in which there is nothing to report. *)
Lemma main_iteration_quiet repr md5 f w n r info w1 :
  network f = Some n ->
  remote f = Some r ->
  get_now_playing repr r w = (Ret info, w1) ->
  truthy info && negb (py_eq (current_track f) info) = false ->
  main_iteration repr md5 (f, w) = (Ret tt, (f, snd (sleep 5 w1))) /\
  lastfm_calls w1 = lastfm_calls w /\
  lastfm_acks w1 = lastfm_acks w /\
  clock w1 = clock w.
Proof.
  intros Hn Hr Hg Hcond.
  rewrite (main_iteration_run _ _ _ _ n Hn), (poll_run _ _ _ r Hr), Hg, Hcond.
  split; [reflexivity|].
  apply device_only_get_now_playing in Hg as (_ & ? & ? & _ & _ & _ & ?).
  auto.
Qed.

(** X16. When nothing is playing ([get_now_playing] returns [None]), a
    turn of the loop makes no call to Last.fm, leaves the local
    variables as they are and sleeps five seconds. *)
Theorem main_iteration_idle repr md5 f w n r w1 :
  network f = Some n ->
  remote f = Some r ->
  get_now_playing repr r w = (Ret JNull, w1) ->
  exists w',
    main_iteration repr md5 (f, w) = (Ret tt, (f, w')) /\
    lastfm_calls w' = lastfm_calls w /\
    lastfm_acks w' = lastfm_acks w /\
    clock w' = (clock w + 5)%Z.
Proof.
  intros Hn Hr Hg.
  destruct (main_iteration_quiet repr md5 f w n r JNull w1 Hn Hr Hg eq_refl)
    as (Hrun & Hc & Ha & Hk).
  exists (snd (sleep 5 w1)). split; [exact Hrun|].
  cbn [sleep snd lastfm_calls lastfm_acks clock]. rewrite Hc, Ha, Hk. auto.
Qed.

Lemma main_iteration_idle_witness :
  exists w',
    main_iteration sample_repr sample_md5 (fresh_frame, paused_world)
    = (Ret tt, (fresh_frame, w')) /\
    lastfm_calls w' = lastfm_calls paused_world /\
    lastfm_acks w' = lastfm_acks paused_world /\
    clock w' = (clock paused_world + 5)%Z.
Proof.
  apply (main_iteration_idle sample_repr sample_md5 fresh_frame paused_world
           sample_network ready_client
           (snd (get_now_playing sample_repr ready_client paused_world))).
  - reflexivity.
  - reflexivity.
  - vm_compute. reflexivity.
Defined.

(** X17. A track that compares equal to [current_track] is not reported
    again: the turn makes no call to Last.fm, keeps [current_track] and
    sleeps five seconds. *)
Theorem main_iteration_same_track repr md5 f w n r info w1 :
  network f = Some n ->
  remote f = Some r ->
  get_now_playing repr r w = (Ret info, w1) ->
  py_eq (current_track f) info = true ->
  exists w',
    main_iteration repr md5 (f, w) = (Ret tt, (f, w')) /\
    lastfm_calls w' = lastfm_calls w /\
    lastfm_acks w' = lastfm_acks w /\
    clock w' = (clock w + 5)%Z.
Proof.
  intros Hn Hr Hg Heq.
  assert (truthy info && negb (py_eq (current_track f) info) = false) as Hcond.
  { rewrite Heq. apply andb_false_r. }
  destruct (main_iteration_quiet repr md5 f w n r info w1 Hn Hr Hg Hcond)
    as (Hrun & Hc & Ha & Hk).
  exists (snd (sleep 5 w1)). split; [exact Hrun|].
  cbn [sleep snd lastfm_calls lastfm_acks clock]. rewrite Hc, Ha, Hk. auto.
Qed.

Lemma main_iteration_same_track_witness :
  exists w',
    main_iteration sample_repr sample_md5 (seen_frame, playing_world)
    = (Ret tt, (seen_frame, w')) /\
    lastfm_calls w' = lastfm_calls playing_world /\
    lastfm_acks w' = lastfm_acks playing_world /\
    clock w' = (clock playing_world + 5)%Z.
Proof.
  apply (main_iteration_same_track sample_repr sample_md5 seen_frame
           playing_world sample_network ready_client (JObj sample_track)
           (snd (get_now_playing sample_repr ready_client playing_world))).
  - reflexivity.
  - reflexivity.
  - vm_compute. reflexivity.
  - vm_compute. reflexivity.
Defined.

Section Report.

Variables (n : LastFMNetwork) (d : list (pystr * json)).
Variables artist title album album_artist track : json.
Hypothesis Hartist : dget (lit "artist") d = Some artist.
Hypothesis Htitle : dget (lit "title") d = Some title.
Hypothesis Halbum : dget (lit "album") d = Some album.
Hypothesis Halbum_artist : dget (lit "album_artist") d = Some album_artist.
Hypothesis Htrack : dget (lit "track") d = Some track.

(** Both calls answered well: the report is the now-playing update
    followed by the scrobble, stamped with the time of the call. *)
Lemma announce_both w rest :
  lastfm_acks w = Ret tt :: Ret tt :: rest ->
  exists w',
    announce (Some n) (JObj d) w = (Ret tt, w') /\
    lastfm_calls w' =
      lastfm_calls w ++
      [UpdateNowPlaying artist title album album_artist track;
       Scrobble artist (clock w) title album album_artist track] /\
    lastfm_acks w' = rest /\
    clock w' = clock w.
Proof.
  intros Hacks. unfold announce.
  repeat first
    [ erewrite bind_ret by (apply getitem_key; eassumption)
    | erewrite bind_ret by (unfold attr; reflexivity) ].
  erewrite bind_ret by (apply pylast_ack_pop; exact Hacks).
  repeat first
    [ erewrite bind_ret by (apply getitem_key; eassumption)
    | erewrite bind_ret by (unfold attr; reflexivity)
    | erewrite bind_ret by (unfold time_time; reflexivity) ].
  erewrite pylast_ack_pop by reflexivity.
  eexists. split; [reflexivity|].
  cbn [acked lastfm_calls lastfm_acks clock]. rewrite <- app_assoc. auto.
Qed.

End Report.

(** X18. A new track whose two reports Last.fm accepts: whatever the
    lookup of similar artists then does, the turn has called
    [update_now_playing] and then [scrobble], with the track's own
    fields and the time of the call, and [current_track] is that track;
    the network and the client are the ones the turn started with. *)
Theorem main_iteration_reports repr md5 f w n r d w1
    artist title album album_artist track rest out f' w' :
  network f = Some n ->
  remote f = Some r ->
  get_now_playing repr r w = (Ret (JObj d), w1) ->
  py_eq (current_track f) (JObj d) = false ->
  dget (lit "artist") d = Some artist ->
  dget (lit "title") d = Some title ->
  dget (lit "album") d = Some album ->
  dget (lit "album_artist") d = Some album_artist ->
  dget (lit "track") d = Some track ->
  lastfm_acks w1 = Ret tt :: Ret tt :: rest ->
  main_iteration repr md5 (f, w) = (out, (f', w')) ->
  current_track f' = JObj d /\
  network f' = Some n /\
  remote f' = Some r /\
  exists more,
    lastfm_calls w' =
      lastfm_calls w ++
      UpdateNowPlaying artist title album album_artist track
      :: Scrobble artist (clock w) title album album_artist track :: more.
Proof.
  intros Hn Hr Hg Hnew Hartist Htitle Halbum Halbum_artist Htrack Hacks.
  assert (truthy (JObj d) && negb (py_eq (current_track f) (JObj d)) = true)
    as Hcond.
  { rewrite Hnew. destruct d; [discriminate | reflexivity]. }
  destruct (announce_both n d artist title album album_artist track
              Hartist Htitle Halbum Halbum_artist Htrack w1 rest Hacks)
    as (w2 & Ha & Hcalls & _ & _).
  pose proof (device_only_get_now_playing _ _ _ _ _ Hg)
    as (_ & _ & Hc1 & _ & _ & _ & Hk1).
  rewrite Hc1, Hk1 in Hcalls.
  rewrite (main_iteration_run _ _ _ _ n Hn), (poll_run _ _ _ r Hr).
  rewrite Hg, Hcond, Hn, Ha.
  match goal with
  | |- (let (_, _) := ?t in _) = _ -> _ => destruct t as [o [f1 w3]] eqn:Ht
  end.
  apply poll_tail_run in Ht as [-> [more Hmore]].
  rewrite Hcalls in Hmore.
  destruct o as [u|e]; [|destruct e]; intros [= _ <- <-];
    cbn [set_current_track current_track network remote sleep snd lastfm_calls];
    (split; [reflexivity|]); (split; [exact Hn|]); (split; [exact Hr|]);
    exists more; rewrite Hmore, <- app_assoc; reflexivity.
Qed.

Lemma main_iteration_reports_witness :
  let run := main_iteration sample_repr sample_md5 (fresh_frame, playing_world) in
  current_track (fst (snd run)) = JObj sample_track /\
  network (fst (snd run)) = Some sample_network /\
  remote (fst (snd run)) = Some ready_client /\
  exists more,
    lastfm_calls (snd (snd run)) =
      lastfm_calls playing_world ++
      UpdateNowPlaying (JStr (lit "Miles Davis")) (JStr (lit "So What"))
        (JStr (lit "Kind of Blue")) (JStr (lit "Miles Davis")) (JInt 1)
      :: Scrobble (JStr (lit "Miles Davis")) (clock playing_world)
           (JStr (lit "So What")) (JStr (lit "Kind of Blue"))
           (JStr (lit "Miles Davis")) (JInt 1) :: more.
Proof.
  apply (main_iteration_reports sample_repr sample_md5 fresh_frame playing_world
           sample_network ready_client sample_track
           (snd (get_now_playing sample_repr ready_client playing_world))
           _ _ _ _ _ []
           (fst (main_iteration sample_repr sample_md5
                   (fresh_frame, playing_world)))).
  - reflexivity.
  - reflexivity.
  - vm_compute. reflexivity.
  - reflexivity.
  - reflexivity.
  - reflexivity.
  - reflexivity.
  - reflexivity.
  - reflexivity.
  - reflexivity.
  - vm_compute. reflexivity.
Defined.

(** X19. An error of the status query other than [NetworkError] (an
    error envelope of the device, a transport failure, a malformed
    answer) is not caught: it ends the loop at once, whatever number of
    turns was still to come, without the sleep at the end of the turn
    and with the local variables as they were. *)
Theorem main_loop_stops repr md5 f w n r e w1 turns :
  network f = Some n ->
  remote f = Some r ->
  get_now_playing repr r w = (Raise e, w1) ->
  e <> NetworkError ->
  main_loop repr md5 (S turns) (f, w) = (Raise e, (f, w1)) /\
  clock w1 = clock w.
Proof.
  intros Hn Hr Hg He. split.
  - cbn [main_loop]. apply bind_raise.
    rewrite (main_iteration_run _ _ _ _ n Hn), (poll_run _ _ _ r Hr), Hg.
    destruct e; try reflexivity. contradiction.
  - apply device_only_get_now_playing in Hg as (_ & _ & _ & _ & _ & _ & Hk).
    exact Hk.
Qed.

Lemma main_loop_stops_witness :
  main_loop sample_repr sample_md5 3 (fresh_frame, refusing_world)
  = (Raise (RemotePlayerError error_119),
     (fresh_frame, snd (get_now_playing sample_repr ready_client refusing_world)))
  /\ clock (snd (get_now_playing sample_repr ready_client refusing_world))
     = clock refusing_world.
Proof.
  apply (main_loop_stops sample_repr sample_md5 fresh_frame refusing_world
           sample_network ready_client (RemotePlayerError error_119) _ 2).
  - reflexivity.
  - reflexivity.
  - vm_compute. reflexivity.
  - discriminate.
Defined.

Lemma main_iteration_frame repr md5 f w n r out f' w' :
  network f = Some n ->
  remote f = Some r ->
  main_iteration repr md5 (f, w) = (out, (f', w')) ->
  network f' = Some n /\ remote f' = Some r.
Proof.
  intros Hn Hr.
  rewrite (main_iteration_run _ _ _ _ n Hn), (poll_run _ _ _ r Hr).
  destruct (get_now_playing repr r w) as [[info|e] w1].
  2:{ destruct e; intros [= _ <- _]; auto. }
  destruct (truthy info && negb (py_eq (current_track f) info)).
  2:{ intros [= _ <- _]; auto. }
  destruct (announce (network f) info w1) as [[u|e] w2].
  2:{ destruct e; intros [= _ <- _]; auto. }
  match goal with
  | |- (let (_, _) := ?t in _) = _ -> _ => destruct t as [o [f1 w3]] eqn:Ht
  end.
  apply poll_tail_run in Ht as [-> _].
  destruct o as [u'|e]; [|destruct e]; intros [= _ <- _]; auto.
Qed.

(** X20. Once the network and the client are there, the loop keeps
    them: after any number of turns, however they end, [network] and
    [remote] are the objects the loop started with, so [setup] is not
    run a second time. *)
Theorem main_loop_keeps_session repr md5 turns f w n r out f' w' :
  network f = Some n ->
  remote f = Some r ->
  main_loop repr md5 turns (f, w) = (out, (f', w')) ->
  network f' = Some n /\ remote f' = Some r.
Proof.
  revert f w. induction turns as [|turns IH]; intros f w Hn Hr; cbn [main_loop].
  - intros [= _ <- _]. auto.
  - unfold bind.
    destruct (main_iteration repr md5 (f, w)) as [[u|e] [f1 w1]] eqn:Hturn;
      apply (main_iteration_frame _ _ _ _ n r _ _ _ Hn Hr) in Hturn as [Hn1 Hr1].
    + intros Hrest. exact (IH f1 w1 Hn1 Hr1 Hrest).
    + intros [= _ <- _]. auto.
Qed.

Lemma main_loop_keeps_session_witness :
  network (fst (snd (main_loop sample_repr sample_md5 2
                       (fresh_frame, playing_world))))
  = Some sample_network /\
  remote (fst (snd (main_loop sample_repr sample_md5 2
                      (fresh_frame, playing_world))))
  = Some ready_client.
Proof.
  apply (main_loop_keeps_session sample_repr sample_md5 2 fresh_frame
           playing_world sample_network ready_client
           (fst (main_loop sample_repr sample_md5 2 (fresh_frame, playing_world)))
           _ (snd (snd (main_loop sample_repr sample_md5 2
                          (fresh_frame, playing_world))))).
  - reflexivity.
  - reflexivity.
  - vm_compute. reflexivity.
Defined.

Lemma clock_kept_refl w : clock_kept w w.
Proof. reflexivity. Qed.

Lemma clock_kept_trans a b c : clock_kept a b -> clock_kept b c -> clock_kept a c.
Proof. unfold clock_kept. congruence. Qed.

Lemma respects_device_only_clock {A} (m : M A) :
  respects device_only m -> respects clock_kept m.
Proof. intros H w out w' Hrun. apply H in Hrun. apply Hrun. Qed.

Lemma clock_kept_new_set : respects clock_kept new_set.
Proof. intros w out w' [= _ <-]. reflexivity. Qed.

Lemma clock_kept_set_add l x : respects clock_kept (set_add l x).
Proof. intros w out w' [= _ <-]. reflexivity. Qed.

Lemma clock_kept_cache_set a l : respects clock_kept (cache_set a l).
Proof.
  intros w out w'. unfold cache_set.
  destruct (hashable a); intros [= _ <-]; reflexivity.
Qed.

Lemma clock_kept_pylast_similar a l : respects clock_kept (pylast_similar a l).
Proof.
  intros w out w'. unfold pylast_similar.
  destruct (lastfm_similar w); intros [= _ <-]; reflexivity.
Qed.

Lemma clock_kept_pylast_ack c : respects clock_kept (pylast_ack c).
Proof.
  intros w out w'. unfold pylast_ack.
  destruct (lastfm_acks w); intros [= _ <-]; reflexivity.
Qed.

Lemma clock_kept_search_for_artist self artist :
  respects clock_kept (search_for_artist self artist).
Proof. apply respects_device_only_clock, device_only_search_for_artist. Qed.

#[local] Hint Resolve clock_kept_new_set clock_kept_set_add clock_kept_cache_set
  clock_kept_pylast_similar clock_kept_pylast_ack
  clock_kept_search_for_artist : respects.

Lemma clock_kept_get_similar_artists self artist limit :
  respects clock_kept (get_similar_artists self artist limit).
Proof.
  unfold get_similar_artists, get_similar.
  respects_steps clock_kept_refl clock_kept_trans.
  apply (respects_for_each _ clock_kept_refl clock_kept_trans). intros artist_ _.
  respects_steps clock_kept_refl clock_kept_trans.
  apply (respects_for_each _ clock_kept_refl clock_kept_trans). intros candidate _.
  respects_steps clock_kept_refl clock_kept_trans.
Qed.

Lemma clock_kept_announce tracker info : respects clock_kept (announce tracker info).
Proof. unfold announce. respects_steps clock_kept_refl clock_kept_trans. Qed.

Lemma poll_clock repr f w r out f' w' :
  remote f = Some r ->
  poll repr (f, w) = (out, (f', w')) ->
  clock w' = clock w.
Proof.
  intros Hr. rewrite (poll_run _ _ _ r Hr).
  destruct (get_now_playing repr r w) as [[info|e] w1] eqn:Hg;
    apply device_only_get_now_playing in Hg as (_ & _ & _ & _ & _ & _ & Hk1).
  2:{ intros [= _ _ <-]. exact Hk1. }
  destruct (truthy info && negb (py_eq (current_track f) info)).
  2:{ intros [= _ _ <-]. exact Hk1. }
  destruct (announce (network f) info w1) as [[u|e] w2] eqn:Ha;
    apply clock_kept_announce in Ha; unfold clock_kept in Ha.
  2:{ intros [= _ _ <-]. congruence. }
  unfold bind at 1.
  destruct (getitem info "artist" (set_current_track info f, w2))
    as [[a|e] s1] eqn:E; apply stateless_getitem in E; subst s1.
  2:{ intros [= _ _ <-]. congruence. }
  unfold bind. rewrite lift_run.
  destruct (get_similar_artists r a 30 w2) as [[l|e] w3] eqn:Hs;
    apply clock_kept_get_similar_artists in Hs; unfold clock_kept in Hs;
    cbn [fst snd]; intros [= _ _ <-]; congruence.
Qed.

(** X21. With the network and the client in place, the sleep of a turn
    is decided by the way the [try] body ended.  A body that ended
    normally is followed by the five seconds of the end of the turn
    alone; a body that ended in [NetworkError] is followed by the ten
    seconds of the handler and then the five of the end of the turn,
    and the turn ends normally; any other error ends the turn with that
    error and without any sleep. *)
Theorem main_iteration_cadence repr md5 f w n r out f' w' :
  network f = Some n ->
  remote f = Some r ->
  main_iteration repr md5 (f, w) = (out, (f', w')) ->
  match fst (poll repr (f, w)) with
  | Ret _ => out = Ret tt /\ clock w' = (clock w + 5)%Z
  | Raise NetworkError => out = Ret tt /\ clock w' = (clock w + 10 + 5)%Z
  | Raise e => out = Raise e /\ clock w' = clock w
  end.
Proof.
  intros Hn Hr. rewrite (main_iteration_run _ _ _ _ n Hn).
  destruct (poll repr (f, w)) as [[u|e] [f1 w1]] eqn:Hp;
    apply (poll_clock _ _ _ r _ _ _ Hr) in Hp; cbn [fst].
  - intros [= <- _ <-]. cbn [sleep snd clock]. rewrite Hp. auto.
  - destruct e; intros [= <- _ <-]; try (split; [reflexivity | exact Hp]).
    cbn [sleep snd clock]. rewrite Hp. auto.
Qed.

Lemma main_iteration_cadence_witness :
  fst (poll sample_repr (fresh_frame, flaky_world)) = Raise NetworkError /\
  fst (main_iteration sample_repr sample_md5 (fresh_frame, flaky_world))
  = Ret tt /\
  clock (snd (snd (main_iteration sample_repr sample_md5
                     (fresh_frame, flaky_world))))
  = (clock flaky_world + 10 + 5)%Z.
Proof.
  split; [vm_compute; reflexivity|].
  apply (main_iteration_cadence sample_repr sample_md5 fresh_frame flaky_world
           sample_network ready_client
           (fst (main_iteration sample_repr sample_md5
                   (fresh_frame, flaky_world)))
           (fst (snd (main_iteration sample_repr sample_md5
                        (fresh_frame, flaky_world))))).
  - reflexivity.
  - reflexivity.
  - vm_compute. reflexivity.
Defined.

(** ** Malformed answers *)

(** X22. The players are examined in the order of the list: an entry
    without a [name] that comes before the first player of the wanted
    name ends the resolution with [KeyError('name')], even though the
    wanted player is further down the list. *)
Theorem get_remote_player_id_nameless_entry
    self w listing data before d after w1 :
  list_remote_players self w = (Ret (JObj listing), w1) ->
  dget (lit "data") listing = Some (JObj data) ->
  dget (lit "players") data = Some (JArr (before ++ JObj d :: after)) ->
  Forall has_name before ->
  Forall (fun q => ~ named REMOTE_PLAYER_NAME q) before ->
  dget (lit "name") d = None ->
  get_remote_player_id self w = (Raise (KeyError (lit "name")), w1).
Proof.
  intros Hlist Hdata Hplayers Hn Hx Hname. unfold get_remote_player_id.
  erewrite bind_ret by exact Hlist.
  erewrite bind_ret by (apply getitem_key; exact Hdata).
  erewrite bind_ret by (apply getitem_key; exact Hplayers).
  erewrite bind_ret by reflexivity.
  apply bind_raise. rewrite next_player_skips by assumption.
  cbn [next_player]. apply bind_raise. unfold getitem. rewrite Hname.
  reflexivity.
Qed.

Lemma get_remote_player_id_nameless_entry_witness :
  get_remote_player_id ready_client
    (world_of [players_reply [player "uuid:0" "Kitchen";
                              JObj [(lit "id", JStr (lit "uuid:9"))];
                              player "uuid:1" "Salon (DLNA)"]] [] [])
  = (Raise (KeyError (lit "name")),
     snd (list_remote_players ready_client
            (world_of [players_reply [player "uuid:0" "Kitchen";
                                      JObj [(lit "id", JStr (lit "uuid:9"))];
                                      player "uuid:1" "Salon (DLNA)"]] [] []))).
Proof.
  apply (get_remote_player_id_nameless_entry ready_client _
           [(lit "data", JObj [(lit "players",
               JArr [player "uuid:0" "Kitchen";
                     JObj [(lit "id", JStr (lit "uuid:9"))];
                     player "uuid:1" "Salon (DLNA)"])]);
            (lit "success", JBool true)]
           [(lit "players",
               JArr [player "uuid:0" "Kitchen";
                     JObj [(lit "id", JStr (lit "uuid:9"))];
                     player "uuid:1" "Salon (DLNA)"])]
           [player "uuid:0" "Kitchen"]
           [(lit "id", JStr (lit "uuid:9"))]
           [player "uuid:1" "Salon (DLNA)"]).
  - vm_compute. reflexivity.
  - reflexivity.
  - reflexivity.
  - repeat constructor. eexists _, _. split; reflexivity.
  - constructor; [|constructor].
    intros (d & Hd & Hname). injection Hd as <-. vm_compute in Hname.
    discriminate Hname.
  - reflexivity.
Defined.

Lemma dget_dict_update_kept {V} k (d1 d2 : list (pystr * V)) :
  is_Some (dget k d1) -> is_Some (dget k (dict_update d1 d2)).
Proof.
  unfold dict_update. revert d1.
  induction d2 as [|[k' v'] d2 IH]; intros d1 H; cbn [fold_left fst snd];
    [exact H|].
  apply IH. rewrite dget_dset. destruct (str_eqb k k'); [eauto | exact H].
Qed.

(** X23. Whatever [get_now_playing] returns is either [None] or a
    dictionary with a [title] key, hence a truthy one: it never returns
    an empty or a title-less record. *)
Theorem get_now_playing_result repr self w v w' :
  get_now_playing repr self w = (Ret v, w') ->
  v = JNull \/
  exists d, v = JObj d /\ is_Some (dget (lit "title") d) /\ truthy v = true.
Proof.
  unfold get_now_playing. intros H.
  apply bind_inv_ret in H as (info & w1 & _ & H).
  apply bind_inv_ret in H as (state & w2 & _ & H).
  destruct (negb (py_eq state (JStr (lit "playing")))).
  - injection H as <- _. left. reflexivity.
  - apply bind_inv_ret in H as (loaded & w3 & _ & H).
    apply bind_inv_ret in H as (additional & w4 & _ & H).
    apply bind_inv_ret in H as (song & w5 & _ & H).
    destruct (negb (truthy song)); [discriminate H|].
    apply bind_inv_ret in H as (loaded' & w6 & _ & H).
    apply bind_inv_ret in H as (title & w7 & _ & H).
    unfold unpack_into in H. destruct song; try discriminate H.
    injection H as <- _. right. eexists. split; [reflexivity|].
    assert (is_Some (dget (lit "title") (dict_update [(lit "title", title)] fields)))
      as Ht.
    { apply dget_dict_update_kept. cbn [dget]. rewrite str_eqb_refl. eauto. }
    split; [exact Ht|].
    destruct (dict_update [(lit "title", title)] fields);
      [destruct Ht as [? Ht]; discriminate Ht | reflexivity].
Qed.

Lemma get_now_playing_result_witness :
  JObj sample_track = JNull \/
  exists d, JObj sample_track = JObj d /\
            is_Some (dget (lit "title") d) /\ truthy (JObj sample_track) = true.
Proof.
  apply (get_now_playing_result sample_repr ready_client playing_world _
           (snd (get_now_playing sample_repr ready_client playing_world))).
  vm_compute. reflexivity.
Defined.

(** X24. A new track whose record has no [artist] ends the turn, and
    the loop, with [KeyError('artist')] raised by the log line: nothing
    has been reported to Last.fm and [current_track] is as it was. *)
Theorem main_iteration_artist_missing repr md5 f w n r d w1 title :
  network f = Some n ->
  remote f = Some r ->
  get_now_playing repr r w = (Ret (JObj d), w1) ->
  py_eq (current_track f) (JObj d) = false ->
  dget (lit "title") d = Some title ->
  dget (lit "artist") d = None ->
  main_iteration repr md5 (f, w) = (Raise (KeyError (lit "artist")), (f, w1)) /\
  lastfm_calls w1 = lastfm_calls w.
Proof.
  intros Hn Hr Hg Hnew Htitle Hartist.
  assert (truthy (JObj d) && negb (py_eq (current_track f) (JObj d)) = true)
    as Hcond.
  { rewrite Hnew. destruct d; [discriminate | reflexivity]. }
  split.
  - rewrite (main_iteration_run _ _ _ _ n Hn), (poll_run _ _ _ r Hr).
    rewrite Hg, Hcond.
    assert (announce (network f) (JObj d) w1
            = (Raise (KeyError (lit "artist")), w1)) as ->.
    { unfold announce.
      erewrite bind_ret by (apply getitem_key; exact Htitle).
      apply bind_raise. unfold getitem. rewrite Hartist. reflexivity. }
    reflexivity.
  - apply device_only_get_now_playing in Hg as (_ & _ & Hc & _). exact Hc.
Qed.

Lemma main_iteration_artist_missing_witness :
  main_iteration sample_repr sample_md5 (fresh_frame, anonymous_world)
  = (Raise (KeyError (lit "artist")),
     (fresh_frame,
      snd (get_now_playing sample_repr ready_client anonymous_world)))
  /\ lastfm_calls (snd (get_now_playing sample_repr ready_client anonymous_world))
     = lastfm_calls anonymous_world.
Proof.
  apply (main_iteration_artist_missing sample_repr sample_md5 fresh_frame
           anonymous_world sample_network ready_client
           [(lit "title", JStr (lit "So What"));
            (lit "album", JStr (lit "Untitled"))]
           _ (JStr (lit "So What"))).
  - reflexivity.
  - reflexivity.
  - vm_compute. reflexivity.
  - reflexivity.
  - reflexivity.
  - reflexivity.
Defined.

(** ** The per-track update step *)

(** The rest of the [try] body when the lookup of the similar artists
    fails. *)
Lemma poll_tail_lookup_error (r : AudioStationRemote) d artist f w e w' :
  dget (lit "artist") d = Some artist ->
  get_similar_artists r artist 30 w = (Raise e, w') ->
  (artist <- getitem (JObj d) "artist" ;;
   lift (L:=frame) (get_similar_artists r artist 30) ;;;
   ret tt) (f, w) = (Raise e, (f, w')).
Proof.
  intros Hartist Hs.
  erewrite bind_ret by (apply getitem_key; exact Hartist).
  unfold bind. rewrite lift_run, Hs. reflexivity.
Qed.

(** C10, as stated, fails when the network error comes from the lookup
    of the similar artists, which is in the same [try] statement, after
    the assignment of [current_track]: the error is caught (the turn
    ends normally after fifteen seconds), [current_track] is the new
    track, and the next turn, seeing the same track, reports nothing to
    Last.fm. *)
Lemma similar_lookup_error_keeps_update :
  let first :=
    main_iteration sample_repr sample_md5 (fresh_frame, lookup_outage_world) in
  let second := main_iteration sample_repr sample_md5 (snd first) in
  let reports :=
    [UpdateNowPlaying (JStr (lit "Miles Davis")) (JStr (lit "So What"))
       (JStr (lit "Kind of Blue")) (JStr (lit "Miles Davis")) (JInt 1);
     Scrobble (JStr (lit "Miles Davis")) 0 (JStr (lit "So What"))
       (JStr (lit "Kind of Blue")) (JStr (lit "Miles Davis")) (JInt 1);
     GetSimilar (JStr (lit "Miles Davis")) 30] in
  fst (poll sample_repr (fresh_frame, lookup_outage_world)) = Raise NetworkError /\
  fst first = Ret tt /\
  clock (snd (snd first)) = 15%Z /\
  current_track fresh_frame = JObj [] /\
  current_track (fst (snd first)) = JObj sample_track /\
  lastfm_calls (snd (snd first)) = reports /\
  fst (get_now_playing sample_repr ready_client (snd (snd first)))
  = Ret (JObj sample_track) /\
  fst second = Ret tt /\
  current_track (fst (snd second)) = JObj sample_track /\
  lastfm_calls (snd (snd second)) = reports.
Proof. vm_compute. repeat split. Qed.

(** C10, amended. In a turn of the loop, [current_track] changes only
    once the now-playing update and the scrobble have both been
    answered well, and it does change then: whatever the rest of the
    turn does, [current_track] is the new track and both calls are in
    the log.  When either of these two calls raises a network error the
    turn ends normally, after the ten and the five seconds, with
    [current_track] as it was, and the next turn, seeing the same
    track, reports it again, starting with the call
    [update_now_playing].  A network error raised afterwards by the
    lookup of the similar artists is caught in the same way, but with
    [current_track] already the new track: the next turn, seeing the
    same track, reports nothing. *)
Theorem main_iteration_track_update repr md5 f w n r :
  network f = Some n ->
  remote f = Some r ->
  (forall out f' w',
     main_iteration repr md5 (f, w) = (out, (f', w')) ->
     current_track f' <> current_track f ->
     exists info w1 w2,
       get_now_playing repr r w = (Ret info, w1) /\
       announce (Some n) info w1 = (Ret tt, w2) /\
       lastfm_acks w1 = Ret tt :: Ret tt :: lastfm_acks w2 /\
       current_track f' = info) /\
  (forall d w1 artist title album album_artist track rest,
     get_now_playing repr r w = (Ret (JObj d), w1) ->
     py_eq (current_track f) (JObj d) = false ->
     dget (lit "artist") d = Some artist ->
     dget (lit "title") d = Some title ->
     dget (lit "album") d = Some album ->
     dget (lit "album_artist") d = Some album_artist ->
     dget (lit "track") d = Some track ->
     (lastfm_acks w1 = Ret tt :: Ret tt :: rest ->
      forall out f' w',
        main_iteration repr md5 (f, w) = (out, (f', w')) ->
        f' = set_current_track (JObj d) f /\
        current_track f' = JObj d /\
        exists more,
          lastfm_calls w' =
          lastfm_calls w1
          ++ UpdateNowPlaying artist title album album_artist track
             :: Scrobble artist (clock w1) title album album_artist track
             :: more) /\
     (lastfm_acks w1 = Raise NetworkError :: rest \/
      lastfm_acks w1 = Ret tt :: Raise NetworkError :: rest ->
      exists w2,
        main_iteration repr md5 (f, w) = (Ret tt, (f, w2)) /\
        clock w2 = (clock w1 + 10 + 5)%Z /\
        forall w3 out f4 w4,
          get_now_playing repr r w2 = (Ret (JObj d), w3) ->
          main_iteration repr md5 (f, w2) = (out, (f4, w4)) ->
          exists more,
            lastfm_calls w4 =
            lastfm_calls w3
            ++ UpdateNowPlaying artist title album album_artist track :: more) /\
     (forall w2 w3,
        announce (Some n) (JObj d) w1 = (Ret tt, w2) ->
        get_similar_artists r artist 30 w2 = (Raise NetworkError, w3) ->
        exists w4,
          main_iteration repr md5 (f, w)
          = (Ret tt, (set_current_track (JObj d) f, w4)) /\
          clock w4 = (clock w1 + 10 + 5)%Z /\
          forall w5,
            get_now_playing repr r w4 = (Ret (JObj d), w5) ->
            py_eq (JObj d) (JObj d) = true ->
            exists w6,
              main_iteration repr md5 (set_current_track (JObj d) f, w4)
              = (Ret tt, (set_current_track (JObj d) f, w6)) /\
              lastfm_calls w6 = lastfm_calls w4)).
Proof.
  intros Hn Hr. split.
  - intros out f' w'. rewrite (main_iteration_run _ _ _ _ n Hn).
    rewrite (poll_run _ _ _ r Hr), Hn.
    destruct (get_now_playing repr r w) as [[info|e] w1] eqn:Hg.
    2:{ destruct e; intros [= _ <- _] Hne; contradiction. }
    destruct (truthy info && negb (py_eq (current_track f) info)).
    2:{ intros [= _ <- _] Hne; contradiction. }
    destruct (announce (Some n) info w1) as [[[]|e] w2] eqn:Ha.
    2:{ destruct e; intros [= _ <- _] Hne; contradiction. }
    intros Hrun _. exists info, w1, w2.
    split; [reflexivity|]. split; [exact Ha|].
    split; [eapply announce_ret; exact Ha|].
    match type of Hrun with
    | (let (_, _) := ?t in _) = _ => destruct t as [o [f1 w3]] eqn:Ht
    end.
    apply poll_tail_run in Ht as [-> _].
    destruct o as [u|e]; [|destruct e]; injection Hrun as _ <- _; reflexivity.
  - intros d w1 artist title album album_artist track rest
      Hg Hnew Hartist Htitle Halbum Halbum_artist Htrack.
    assert (truthy (JObj d) && negb (py_eq (current_track f) (JObj d)) = true)
      as Hcond.
    { rewrite Hnew. destruct d; [discriminate | reflexivity]. }
    split; [|split].
    + intros Hacks out f' w'.
      destruct (announce_both n d artist title album album_artist track
                  Hartist Htitle Halbum Halbum_artist Htrack w1 rest Hacks)
        as (w2 & Ha & Hcalls & _ & _).
      rewrite (main_iteration_run _ _ _ _ n Hn), (poll_run _ _ _ r Hr).
      rewrite Hg, Hcond, Hn, Ha.
      match goal with
      | |- (let (_, _) := ?t in _) = _ -> _ =>
          destruct t as [o [f1 w3]] eqn:Ht
      end.
      apply poll_tail_run in Ht as [-> [more Hmore]].
      rewrite Hcalls in Hmore.
      destruct o as [u|e]; [|destruct e]; intros [= _ <- <-];
        cbn [set_current_track current_track sleep snd lastfm_calls];
        (split; [reflexivity|]); (split; [reflexivity|]);
        exists more; rewrite Hmore, <- app_assoc; reflexivity.
    + intros Hacks.
      destruct (announce_network_error n d artist title album album_artist track
                  Hartist Htitle Halbum Halbum_artist Htrack w1 rest Hacks)
        as (w2 & Ha & Hclock & _).
      exists (snd (sleep 5 (snd (sleep 10 w2)))). split; [|split].
      * rewrite (main_iteration_run _ _ _ _ n Hn), (poll_run _ _ _ r Hr).
        rewrite Hg, Hcond, Hn, Ha. reflexivity.
      * cbn [sleep snd clock]. rewrite Hclock. reflexivity.
      * intros w3 out f4 w4 Hg3.
        rewrite (main_iteration_run _ _ _ _ n Hn), (poll_run _ _ _ r Hr).
        rewrite Hg3, Hcond, Hn.
        destruct (announce (Some n) (JObj d) w3) as [[u|e] w5] eqn:Ha3;
          destruct (announce_emits n d artist title album album_artist track
                      Hartist Htitle Halbum Halbum_artist Htrack _ _ _ Ha3)
            as [more Hmore].
        -- match goal with
           | |- (let (_, _) := ?t in _) = _ -> _ =>
               destruct t as [o [f1 w6]] eqn:Ht
           end.
           apply poll_tail_run in Ht as [_ [more' Hmore']].
           destruct o as [u'|e]; [|destruct e]; intros [= _ _ <-];
             cbn [sleep snd lastfm_calls];
             rewrite Hmore', Hmore, <- app_assoc; eexists; reflexivity.
        -- destruct e; intros [= _ _ <-]; cbn [sleep snd lastfm_calls];
             eexists; exact Hmore.
    + intros w2 w3 Ha Hs.
      exists (snd (sleep 5 (snd (sleep 10 w3)))). split; [|split].
      * rewrite (main_iteration_run _ _ _ _ n Hn), (poll_run _ _ _ r Hr).
        rewrite Hg, Hcond, Hn, Ha.
        rewrite (poll_tail_lookup_error _ _ _ _ _ _ _ Hartist Hs).
        reflexivity.
      * pose proof (clock_kept_announce _ _ _ _ _ Ha) as Hk2.
        pose proof (clock_kept_get_similar_artists _ _ _ _ _ _ Hs) as Hk3.
        unfold clock_kept in Hk2, Hk3.
        cbn [sleep snd clock]. rewrite Hk3, Hk2. reflexivity.
      * intros w5 Hg5 Hsame.
        assert (network (set_current_track (JObj d) f) = Some n) as Hn' by exact Hn.
        assert (remote (set_current_track (JObj d) f) = Some r) as Hr' by exact Hr.
        destruct (main_iteration_quiet repr md5 _ _ n r _ _ Hn' Hr' Hg5)
          as (Hrun & Hcalls & _).
        { cbn [set_current_track current_track]. rewrite Hsame.
          apply andb_false_r. }
        eexists. split; [exact Hrun|]. exact Hcalls.
Qed.

Lemma main_iteration_track_update_witness :
  (let w1 := snd (get_now_playing sample_repr ready_client flaky_world) in
   exists w2,
     main_iteration sample_repr sample_md5 (fresh_frame, flaky_world)
     = (Ret tt, (fresh_frame, w2)) /\
     clock w2 = (clock w1 + 10 + 5)%Z /\
     forall w3 out f4 w4,
       get_now_playing sample_repr ready_client w2
       = (Ret (JObj sample_track), w3) ->
       main_iteration sample_repr sample_md5 (fresh_frame, w2)
       = (out, (f4, w4)) ->
       exists more,
         lastfm_calls w4 =
         lastfm_calls w3
         ++ UpdateNowPlaying (JStr (lit "Miles Davis")) (JStr (lit "So What"))
              (JStr (lit "Kind of Blue")) (JStr (lit "Miles Davis")) (JInt 1)
            :: more) /\
  (let run :=
     main_iteration sample_repr sample_md5 (fresh_frame, lookup_outage_world) in
   fst (snd run) = set_current_track (JObj sample_track) fresh_frame /\
   current_track (fst (snd run)) = JObj sample_track /\
   exists more,
     lastfm_calls (snd (snd run)) =
     lastfm_calls (snd (get_now_playing sample_repr ready_client
                          lookup_outage_world))
     ++ UpdateNowPlaying (JStr (lit "Miles Davis")) (JStr (lit "So What"))
          (JStr (lit "Kind of Blue")) (JStr (lit "Miles Davis")) (JInt 1)
        :: Scrobble (JStr (lit "Miles Davis"))
             (clock (snd (get_now_playing sample_repr ready_client
                            lookup_outage_world)))
             (JStr (lit "So What")) (JStr (lit "Kind of Blue"))
             (JStr (lit "Miles Davis")) (JInt 1)
        :: more) /\
  (let w1 := snd (get_now_playing sample_repr ready_client lookup_outage_world) in
   let seen := set_current_track (JObj sample_track) fresh_frame in
   exists w4,
     main_iteration sample_repr sample_md5 (fresh_frame, lookup_outage_world)
     = (Ret tt, (seen, w4)) /\
     clock w4 = (clock w1 + 10 + 5)%Z /\
     forall w5,
       get_now_playing sample_repr ready_client w4
       = (Ret (JObj sample_track), w5) ->
       py_eq (JObj sample_track) (JObj sample_track) = true ->
       exists w6,
         main_iteration sample_repr sample_md5 (seen, w4)
         = (Ret tt, (seen, w6)) /\
         lastfm_calls w6 = lastfm_calls w4).
Proof.
  split; [|split].
  - apply (proj1 (proj2
             (proj2 (main_iteration_track_update sample_repr sample_md5
                       fresh_frame flaky_world sample_network ready_client
                       eq_refl eq_refl)
                sample_track
                (snd (get_now_playing sample_repr ready_client flaky_world))
                (JStr (lit "Miles Davis")) (JStr (lit "So What"))
                (JStr (lit "Kind of Blue")) (JStr (lit "Miles Davis")) (JInt 1)
                [] eq_refl eq_refl eq_refl eq_refl eq_refl eq_refl eq_refl))).
    right. reflexivity.
  - apply (proj1
             (proj2 (main_iteration_track_update sample_repr sample_md5
                       fresh_frame lookup_outage_world sample_network
                       ready_client eq_refl eq_refl)
                sample_track
                (snd (get_now_playing sample_repr ready_client
                        lookup_outage_world))
                (JStr (lit "Miles Davis")) (JStr (lit "So What"))
                (JStr (lit "Kind of Blue")) (JStr (lit "Miles Davis")) (JInt 1)
                [] eq_refl eq_refl eq_refl eq_refl eq_refl eq_refl eq_refl)
             eq_refl
             (fst (main_iteration sample_repr sample_md5
                     (fresh_frame, lookup_outage_world)))).
    vm_compute. reflexivity.
  - apply (proj2 (proj2
             (proj2 (main_iteration_track_update sample_repr sample_md5
                       fresh_frame lookup_outage_world sample_network
                       ready_client eq_refl eq_refl)
                sample_track
                (snd (get_now_playing sample_repr ready_client
                        lookup_outage_world))
                (JStr (lit "Miles Davis")) (JStr (lit "So What"))
                (JStr (lit "Kind of Blue")) (JStr (lit "Miles Davis")) (JInt 1)
                [] eq_refl eq_refl eq_refl eq_refl eq_refl eq_refl eq_refl))
             (snd (announce (Some sample_network) (JObj sample_track)
                     (snd (get_now_playing sample_repr ready_client
                             lookup_outage_world))))
             (snd (get_similar_artists ready_client (JStr (lit "Miles Davis")) 30
                     (snd (announce (Some sample_network) (JObj sample_track)
                             (snd (get_now_playing sample_repr ready_client
                                     lookup_outage_world))))))).
    + vm_compute. reflexivity.
    + vm_compute. reflexivity.
Defined.
